(** * prod.py: streaming JSON reconstruction for the PII back end

    A shallow embedding of [src/prod.py]: the chunker [split_into_chunks], the
    response generator [get_response_stream] and the two Flask handlers
    [detect] and [abstract], together with the parts of Python they rest on
    (str methods, slices, [range], [json.loads]).

    Conventions.
    - A Python [str] is a list of Unicode code points ([pystr]); [str "..."]
      turns a literal into one.
    - A Python exception is a value of [exn]; a computation that may raise
      returns a [result].
    - A generator is modelled by the list of events it produces when it is
      run to its end, paired with the way it ends. *)

From Stdlib Require Import String Ascii List ZArith NArith Lia Bool.
Import ListNotations.

Set Implicit Arguments.
Local Open Scope Z_scope.

(* ================================================================= *)
(** ** Exceptions *)

Inductive exn : Set :=
| JSONDecodeError
| KeyError
| TypeError
| AttributeError
| ValueError.

Inductive result (A : Type) : Type :=
| Ok (a : A)
| Raise (e : exn).

Arguments Ok {A} a.
Arguments Raise {A} e.

Definition bind {A B : Type} (m : result A) (f : A -> result B) : result B :=
  match m with
  | Ok a => f a
  | Raise e => Raise e
  end.

Notation "x <- m ;; k" := (bind m (fun x => k))
  (at level 61, m at next level, right associativity).

(* ================================================================= *)
(** ** Python strings and lists *)

Definition pystr : Set := list N.

(** The code points of a literal. *)
Definition str (s : string) : pystr :=
  map N_of_ascii (list_ascii_of_string s).

Definition len {A : Type} (l : list A) : Z := Z.of_nat (length l).

(** [c in s] for a one-character [c]. *)
Definition contains (c : N) (s : pystr) : bool := existsb (N.eqb c) s.

(** The scan behind [rfind]: [i] is the index of the head of [s], [last] the
    highest index of [c] seen so far. *)
Fixpoint rfind_from (i : Z) (last : Z) (c : N) (s : pystr) : Z :=
  match s with
  | [] => last
  | x :: s' => rfind_from (i + 1) (if N.eqb x c then i else last) c s'
  end.

(** [s.rfind(c)]: the highest index of [c] in [s], or [-1]. *)
Definition rfind (c : N) (s : pystr) : Z := rfind_from 0 (-1) c s.

(** A slice bound as Python clamps it: negative bounds count from the end. *)
Definition clamp (n : Z) (i : Z) : nat :=
  Z.to_nat (if i <? 0 then Z.max (i + n) 0 else Z.min i n).

(** [l[i:j]]. *)
Definition slice {A : Type} (l : list A) (i j : Z) : list A :=
  let lo := clamp (len l) i in
  let hi := clamp (len l) j in
  firstn (hi - lo)%nat (skipn lo l).

(** [l[:j]]. *)
Definition slice_to {A : Type} (l : list A) (j : Z) : list A := slice l 0 j.

(** [str.isspace] for one code point (CPython's [_PyUnicode_IsWhitespace]). *)
Definition isspace (c : N) : bool :=
  ((9 <=? c) && (c <=? 13) || (28 <=? c) && (c <=? 32)
   || (c =? 133) || (c =? 160) || (c =? 5760)
   || (8192 <=? c) && (c <=? 8202)
   || (c =? 8232) || (c =? 8233) || (c =? 8239) || (c =? 8287)
   || (c =? 12288))%N.

(** [s.split()]: the maximal runs of non-whitespace, [word] being the run
    read so far. *)
Fixpoint split_from (word : pystr) (s : pystr) : list pystr :=
  match s with
  | [] => match word with [] => [] | _ => [word] end
  | c :: s' =>
      if isspace c
      then match word with
           | [] => split_from [] s'
           | _ => word :: split_from [] s'
           end
      else split_from (word ++ [c]) s'
  end.

Definition split (s : pystr) : list pystr := split_from [] s.

(** [sep.join(l)]. *)
Fixpoint join (sep : pystr) (l : list pystr) : pystr :=
  match l with
  | [] => []
  | [w] => w
  | w :: rest => w ++ sep ++ join sep rest
  end.

(** The values [range(start, stop, step)] runs through, by its loop test. *)
Fixpoint range_up (fuel : nat) (i stop step : Z) : list Z :=
  match fuel with
  | O => []
  | S fuel' => if i <? stop then i :: range_up fuel' (i + step) stop step else []
  end.

Fixpoint range_down (fuel : nat) (i stop step : Z) : list Z :=
  match fuel with
  | O => []
  | S fuel' => if stop <? i then i :: range_down fuel' (i + step) stop step else []
  end.

Definition range (start stop step : Z) : result (list Z) :=
  if step =? 0 then Raise ValueError
  else if 0 <? step then Ok (range_up (Z.to_nat (stop - start)) start stop step)
  else Ok (range_down (Z.to_nat (start - stop)) start stop step).

(* ================================================================= *)
(** ** Python values

    The values [json.loads] builds.  A [dict] keeps its keys in insertion
    order, each key once.  An [int] is unbounded.  A float literal is kept as
    the decimal [m * 10^e] it denotes (Python rounds it to a double; two
    values equal here are equal there). *)

#[local] Unset Elimination Schemes.

Inductive value : Set :=
| JNull
| JBool (b : bool)
| JInt (n : Z)
| JFloat (m e : Z)
| JNaN
| JInfinity (negative : bool)
| JStr (s : pystr)
| JArr (items : list value)
| JObj (pairs : list (pystr * value)).

#[local] Set Elimination Schemes.

Definition dict : Set := list (pystr * value).

Fixpoint str_eqb (a b : pystr) : bool :=
  match a, b with
  | [], [] => true
  | x :: a', y :: b' => N.eqb x y && str_eqb a' b'
  | _, _ => false
  end.

(** [d.get(k)], [None] when the key is missing. *)
Fixpoint dict_get (d : dict) (k : pystr) : option value :=
  match d with
  | [] => None
  | (k', v) :: d' => if str_eqb k' k then Some v else dict_get d' k
  end.

(** [d[k] = v]: a key already present keeps its place. *)
Fixpoint dict_set (d : dict) (k : pystr) (v : value) : dict :=
  match d with
  | [] => [(k, v)]
  | (k', v') :: d' =>
      if str_eqb k' k then (k', v) :: d' else (k', v') :: dict_set d' k v
  end.

(** [x[k]] for a str [k]. *)
Definition getitem (x : value) (k : pystr) : result value :=
  match x with
  | JObj d => match dict_get d k with
              | Some v => Ok v
              | None => Raise KeyError
              end
  | _ => Raise TypeError
  end.

(** [x[k] = v] for a str [k]. *)
Definition setitem (x : value) (k : pystr) (v : value) : result value :=
  match x with
  | JObj d => Ok (JObj (dict_set d k v))
  | _ => Raise TypeError
  end.

(** [l + x] for a list [l]. *)
Definition list_add (l : list value) (x : value) : result (list value) :=
  match x with
  | JArr l' => Ok (l ++ l')
  | _ => Raise TypeError
  end.

(** [l.extend(x)]: any iterable is accepted; a str gives its characters, a
    dict its keys. *)
Definition extend (l : list value) (x : value) : result (list value) :=
  match x with
  | JArr l' => Ok (l ++ l')
  | JStr s => Ok (l ++ map (fun c => JStr [c]) s)
  | JObj d => Ok (l ++ map (fun kv => JStr (fst kv)) d)
  | _ => Raise TypeError
  end.

(** Truth value, as [not x] tests it.  A float is false when its double is
    zero: the decimal is at most half the least subnormal, [2^-1075]. *)
Definition truthy (x : value) : bool :=
  match x with
  | JNull => false
  | JBool b => b
  | JInt n => negb (n =? 0)
  | JFloat m e =>
      negb ((m =? 0) || ((e <? 0) && (Z.abs m * 2 ^ 1075 <=? 10 ^ (- e))))
  | JNaN => true
  | JInfinity _ => true
  | JStr s => match s with [] => false | _ => true end
  | JArr l => match l with [] => false | _ => true end
  | JObj d => match d with [] => false | _ => true end
  end.

(* ================================================================= *)
(** ** json.loads

    The decoder of the standard library (its C scanner), as a lexer that
    reads one code point at a time followed by a stack machine over the
    tokens.  Every failure of the decoder is a [JSONDecodeError].  The
    interpreter's limits on nesting depth and on the digits of an int are
    not modelled. *)

Module json.

Definition ch (a : ascii) : N := N_of_ascii a.
Definition quote : N := 34%N.
Definition backslash : N := 92%N.

Inductive token : Set :=
| TLBrace | TRBrace | TLBracket | TRBracket | TColon | TComma
| TAtom (v : value).

Inductive lex_state : Set :=
| LStart
| LString (acc : pystr)
| LEscape (acc : pystr)
| LHex (acc : pystr) (high : option N) (todo : nat) (v : N)
| LHigh (acc : pystr) (high : N)
| LHighEscape (acc : pystr) (high : N)
| LWord (rest : pystr) (v : value)
| LMinus
| LInt (neg : bool) (n : N) (zero : bool)
| LDot (neg : bool) (n : N)
| LFrac (neg : bool) (m : N) (digits : Z)
| LExp (neg : bool) (m : N) (digits : Z)
| LExpSign (neg : bool) (m : N) (digits : Z) (eneg : bool)
| LExpDigits (neg : bool) (m : N) (digits : Z) (eneg : bool) (x : N).

Definition is_digit (c : N) : bool := ((48 <=? c) && (c <=? 57))%N.
Definition digit (c : N) : N := (c - 48)%N.

Definition hex_digit (c : N) : option N :=
  if ((48 <=? c) && (c <=? 57))%N then Some (c - 48)%N
  else if ((97 <=? c) && (c <=? 102))%N then Some (c - 87)%N
  else if ((65 <=? c) && (c <=? 70))%N then Some (c - 55)%N
  else None.

Definition is_high_surrogate (c : N) : bool := ((55296 <=? c) && (c <=? 56319))%N.
Definition is_low_surrogate (c : N) : bool := ((56320 <=? c) && (c <=? 57343))%N.
Definition join_surrogates (hi lo : N) : N :=
  (65536 + (hi - 55296) * 1024 + (lo - 56320))%N.

Definition signed (neg : bool) (n : N) : Z :=
  if neg then - Z.of_N n else Z.of_N n.

(** The whitespace the decoder skips between tokens. *)
Definition is_ws (c : N) : bool :=
  ((c =? 32) || (c =? 9) || (c =? 10) || (c =? 13))%N.

(** A code point read between tokens. *)
Definition lex_start (c : N) : option (list token * lex_state) :=
  if is_ws c then Some ([], LStart)
  else if N.eqb c (ch "{") then Some ([TLBrace], LStart)
  else if N.eqb c (ch "}") then Some ([TRBrace], LStart)
  else if N.eqb c (ch "[") then Some ([TLBracket], LStart)
  else if N.eqb c (ch "]") then Some ([TRBracket], LStart)
  else if N.eqb c (ch ":") then Some ([TColon], LStart)
  else if N.eqb c (ch ",") then Some ([TComma], LStart)
  else if N.eqb c quote then Some ([], LString [])
  else if N.eqb c (ch "n") then Some ([], LWord (str "ull") JNull)
  else if N.eqb c (ch "t") then Some ([], LWord (str "rue") (JBool true))
  else if N.eqb c (ch "f") then Some ([], LWord (str "alse") (JBool false))
  else if N.eqb c (ch "N") then Some ([], LWord (str "aN") JNaN)
  else if N.eqb c (ch "I") then Some ([], LWord (str "nfinity") (JInfinity false))
  else if N.eqb c (ch "-") then Some ([], LMinus)
  else if N.eqb c (ch "0") then Some ([], LInt false 0 true)
  else if is_digit c then Some ([], LInt false (digit c) false)
  else None.

(** The number token a finished literal stands for. *)
Definition number_token (st : lex_state) : option token :=
  match st with
  | LInt neg n _ => Some (TAtom (JInt (signed neg n)))
  | LFrac neg m digits => Some (TAtom (JFloat (signed neg m) (- digits)))
  | LExpDigits neg m digits eneg x =>
      Some (TAtom (JFloat (signed neg m) (signed eneg x - digits)))
  | _ => None
  end.

(** A literal ends at [c]: its token, then [c] read afresh. *)
Definition end_number (st : lex_state) (c : N) : option (list token * lex_state) :=
  match number_token st, lex_start c with
  | Some t, Some (ts, st') => Some (t :: ts, st')
  | _, _ => None
  end.

(** A code point inside a string literal. *)
Definition lex_string (acc : pystr) (c : N) : option (list token * lex_state) :=
  if N.eqb c quote then Some ([TAtom (JStr acc)], LStart)
  else if N.eqb c backslash then Some ([], LEscape acc)
  else if (c <=? 31)%N then None
  else Some ([], LString (acc ++ [c])).

(** The code point after a backslash. *)
Definition lex_escape (acc : pystr) (c : N) : option (list token * lex_state) :=
  if N.eqb c quote || N.eqb c backslash || N.eqb c (ch "/")
  then Some ([], LString (acc ++ [c]))
  else if N.eqb c (ch "b") then Some ([], LString (acc ++ [8%N]))
  else if N.eqb c (ch "f") then Some ([], LString (acc ++ [12%N]))
  else if N.eqb c (ch "n") then Some ([], LString (acc ++ [10%N]))
  else if N.eqb c (ch "r") then Some ([], LString (acc ++ [13%N]))
  else if N.eqb c (ch "t") then Some ([], LString (acc ++ [9%N]))
  else if N.eqb c (ch "u") then Some ([], LHex acc None 4 0%N)
  else None.

(** A [\uXXXX] escape has been read as [v]; [high] is a high surrogate
    that the escape just before it gave. *)
Definition end_hex (acc : pystr) (high : option N) (v : N) : lex_state :=
  match high with
  | Some h =>
      if is_low_surrogate v then LString (acc ++ [join_surrogates h v])
      else if is_high_surrogate v then LHigh (acc ++ [h]) v
      else LString (acc ++ [h; v])
  | None =>
      if is_high_surrogate v then LHigh acc v else LString (acc ++ [v])
  end.

Definition lex_step (st : lex_state) (c : N) : option (list token * lex_state) :=
  match st with
  | LStart => lex_start c
  | LString acc => lex_string acc c
  | LEscape acc => lex_escape acc c
  | LHex acc high todo v =>
      match hex_digit c with
      | None => None
      | Some d =>
          let v' := (v * 16 + d)%N in
          match todo with
          | O => None
          | 1%nat => Some ([], end_hex acc high v')
          | S todo' => Some ([], LHex acc high todo' v')
          end
      end
  | LHigh acc h =>
      if N.eqb c backslash then Some ([], LHighEscape acc h)
      else lex_string (acc ++ [h]) c
  | LHighEscape acc h =>
      if N.eqb c (ch "u") then Some ([], LHex acc (Some h) 4 0%N)
      else lex_escape (acc ++ [h]) c
  | LWord rest v =>
      match rest with
      | [] => None
      | [x] => if N.eqb c x then Some ([TAtom v], LStart) else None
      | x :: rest' => if N.eqb c x then Some ([], LWord rest' v) else None
      end
  | LMinus =>
      if N.eqb c (ch "I") then Some ([], LWord (str "nfinity") (JInfinity true))
      else if N.eqb c (ch "0") then Some ([], LInt true 0 true)
      else if is_digit c then Some ([], LInt true (digit c) false)
      else None
  | LInt neg n zero =>
      if is_digit c
      then if zero then None else Some ([], LInt neg (n * 10 + digit c) false)
      else if N.eqb c (ch ".") then Some ([], LDot neg n)
      else if N.eqb c (ch "e") || N.eqb c (ch "E") then Some ([], LExp neg n 0)
      else end_number st c
  | LDot neg n =>
      if is_digit c then Some ([], LFrac neg (n * 10 + digit c) 1) else None
  | LFrac neg m digits =>
      if is_digit c then Some ([], LFrac neg (m * 10 + digit c) (digits + 1))
      else if N.eqb c (ch "e") || N.eqb c (ch "E") then Some ([], LExp neg m digits)
      else end_number st c
  | LExp neg m digits =>
      if N.eqb c (ch "-") then Some ([], LExpSign neg m digits true)
      else if N.eqb c (ch "+") then Some ([], LExpSign neg m digits false)
      else if is_digit c then Some ([], LExpDigits neg m digits false (digit c))
      else None
  | LExpSign neg m digits eneg =>
      if is_digit c then Some ([], LExpDigits neg m digits eneg (digit c)) else None
  | LExpDigits neg m digits eneg x =>
      if is_digit c then Some ([], LExpDigits neg m digits eneg (x * 10 + digit c))
      else end_number st c
  end.

(** The end of the text. *)
Definition lex_finish (st : lex_state) : option (list token) :=
  match st with
  | LStart => Some []
  | _ => match number_token st with
         | Some t => Some [t]
         | None => None
         end
  end.

Fixpoint lex (st : lex_state) (s : pystr) : option (list token) :=
  match s with
  | [] => lex_finish st
  | c :: s' =>
      match lex_step st c with
      | None => None
      | Some (ts, st') =>
          match lex st' s' with
          | None => None
          | Some rest => Some (ts ++ rest)
          end
      end
  end.

(** What the parser has open: an array with its items so far, an object with
    its pairs so far, or an object with a key that waits for its value. *)
Inductive frame : Set :=
| FArray (items : list value)
| FObject (pairs : dict)
| FMember (pairs : dict) (key : pystr).

Inductive mode : Set :=
| MValue        (* a value must follow *)
| MValueOrEnd   (* after an opening bracket: a value or the closing one *)
| MKeyOrEnd     (* after an opening brace: a key or the closing one *)
| MKey          (* after a comma in an object *)
| MColon        (* after a key *)
| MNext         (* after a value in an array or object *)
| MDone (v : value).

(** A value is complete: it goes to the innermost open array or member. *)
Definition push_value (v : value) (stack : list frame) : option (list frame * mode) :=
  match stack with
  | [] => Some ([], MDone v)
  | FArray items :: stack' => Some (FArray (items ++ [v]) :: stack', MNext)
  | FMember pairs key :: stack' =>
      Some (FObject (dict_set pairs key v) :: stack', MNext)
  | FObject _ :: _ => None
  end.

Definition open_value (t : token) (stack : list frame) : option (list frame * mode) :=
  match t with
  | TAtom v => push_value v stack
  | TLBracket => Some (FArray [] :: stack, MValueOrEnd)
  | TLBrace => Some (FObject [] :: stack, MKeyOrEnd)
  | _ => None
  end.

Definition close_array (stack : list frame) : option (list frame * mode) :=
  match stack with
  | FArray items :: stack' => push_value (JArr items) stack'
  | _ => None
  end.

Definition close_object (stack : list frame) : option (list frame * mode) :=
  match stack with
  | FObject pairs :: stack' => push_value (JObj pairs) stack'
  | _ => None
  end.

Definition read_key (t : token) (stack : list frame) : option (list frame * mode) :=
  match t, stack with
  | TAtom (JStr k), FObject pairs :: stack' => Some (FMember pairs k :: stack', MColon)
  | _, _ => None
  end.

Definition parse_step (stack : list frame) (m : mode) (t : token)
  : option (list frame * mode) :=
  match m with
  | MValue => open_value t stack
  | MValueOrEnd =>
      match t with
      | TRBracket => close_array stack
      | _ => open_value t stack
      end
  | MKeyOrEnd =>
      match t with
      | TRBrace => close_object stack
      | _ => read_key t stack
      end
  | MKey => read_key t stack
  | MColon =>
      match t with
      | TColon => Some (stack, MValue)
      | _ => None
      end
  | MNext =>
      match t, stack with
      | TComma, FArray _ :: _ => Some (stack, MValue)
      | TComma, FObject _ :: _ => Some (stack, MKey)
      | TRBracket, _ => close_array stack
      | TRBrace, _ => close_object stack
      | _, _ => None
      end
  | MDone _ => None
  end.

Fixpoint parse (stack : list frame) (m : mode) (ts : list token) : option value :=
  match ts with
  | [] => match m, stack with
          | MDone v, [] => Some v
          | _, _ => None
          end
  | t :: ts' =>
      match parse_step stack m t with
      | None => None
      | Some (stack', m') => parse stack' m' ts'
      end
  end.

(** [json.loads(s)]. *)
Definition loads (s : pystr) : result value :=
  match lex LStart s with
  | None => Raise JSONDecodeError
  | Some ts =>
      match parse [] MValue ts with
      | None => Raise JSONDecodeError
      | Some v => Ok v
      end
  end.

End json.

(* ================================================================= *)
(** ** The chunker *)

(** [x.split()]: only a str has the method. *)
Definition method_split (x : value) : result (list pystr) :=
  match x with
  | JStr s => Ok (split s)
  | _ => Raise AttributeError
  end.

(** [split_into_chunks(input_text, chunk_size)]. *)
Definition split_into_chunks (input_text : value) (chunk_size : Z)
  : result (list pystr) :=
  words <- method_split input_text ;;
  starts <- range 0 (len words) chunk_size ;;
  Ok (map (fun i => join (str " ") (slice words i (i + chunk_size))) starts).

Definition default_chunk_size : Z := 100.

(* ================================================================= *)
(** ** Configuration *)

Definition dquote : N := 34%N.

Definition global_base_model : pystr := str "llama3".

(** [system_prompts["detect"]] and [system_prompts["abstract"]]. *)
Definition detect_prompt : pystr :=
  str "You an expert in cybersecurity and data privacy. You are now tasked to detect PII from the given text, using the following taxonomy only:

  ADDRESS
  IP_ADDRESS
  URL
  SSN
  PHONE_NUMBER
  EMAIL
  DRIVERS_LICENSE
  PASSPORT_NUMBER
  TAXPAYER_IDENTIFICATION_NUMBER
  ID_NUMBER
  NAME
  USERNAME
  
  KEYS: Passwords, passkeys, API keys, encryption keys, and any other form of security keys.
  GEOLOCATION: Places and locations, such as cities, provinces, countries, international regions, or named infrastructures (bus stops, bridges, etc.). 
  AFFILIATION: Names of organizations, such as public and private companies, schools, universities, public institutions, prisons, healthcare institutions, non-governmental organizations, churches, etc. 
  DEMOGRAPHIC_ATTRIBUTE: Demographic attributes of a person, such as native language, descent, heritage, ethnicity, nationality, religious or political group, birthmarks, ages, sexual orientation, gender and sex. 
  TIME: Description of a specific date, time, or duration. 
  HEALTH_INFORMATION: Details concerning an individual's health status, medical conditions, treatment records, and health insurance information. 
  FINANCIAL_INFORMATION: Financial details such as bank account numbers, credit card numbers, investment records, salary information, and other financial statuses or activities. 
  EDUCATIONAL_RECORD: Educational background details, including academic records, transcripts, degrees, and certification.
    
    For the given message that a user sends to a chatbot, identify all the personally identifiable information using the above taxonomy only, and the entity_type should be selected from the all-caps categories.
    Note that the information should be related to a real person not in a public context, but okay if not uniquely identifiable.
    Result should be in its minimum possible unit.
    Return me ONLY a json in the following format: {" ++ [dquote] ++
  str "results" ++ [dquote] ++
  str ": [{" ++ [dquote] ++
  str "entity_type" ++ [dquote] ++
  str ": YOU_DECIDE_THE_PII_TYPE, " ++ [dquote] ++
  str "text" ++ [dquote] ++
  str ": PART_OF_MESSAGE_YOU_IDENTIFIED_AS_PII]}".

Definition abstract_prompt : pystr :=
  str "Rewrite the text to abstract the protected information, without changing other parts. For example:
        Input: <Text>I graduated from CMU, and I earn a six-figure salary. Today in the office...</Text>
        <ProtectedInformation>CMU, Today</ProtectedInformation>
        Output JSON: {" ++ [dquote] ++
  str "results" ++ [dquote] ++
  str ": [{" ++ [dquote] ++
  str "protected" ++ [dquote] ++
  str ": " ++ [dquote] ++
  str "CMU" ++ [dquote] ++
  str ", " ++ [dquote] ++
  str "abstracted" ++ [dquote] ++
  str ":" ++ [dquote] ++
  str "a prestigious university" ++ [dquote] ++
  str "}, {" ++ [dquote] ++
  str "protected" ++ [dquote] ++
  str ": " ++ [dquote] ++
  str "Today" ++ [dquote] ++
  str ", " ++ [dquote] ++
  str "abstracted" ++ [dquote] ++
  str ":" ++ [dquote] ++
  str "Recently" ++ [dquote] ++
  str "}}] Please use " ++ [dquote] ++
  str "results" ++ [dquote] ++
  str " as the main key in the JSON object.".

(* ================================================================= *)
(** ** The response generator

    [ollama.chat(..., stream=True)] is the one collaborator: given the model
    name, the system prompt and the user content it yields a finite sequence
    of records, of which the code reads [chunk["done"]] and
    [chunk["message"]["content"]].  A failure of the engine itself is outside
    the model. *)

Record chunk : Set := {
  done : bool;
  content : pystr
}.

(** What a run of the generator does, in order: the calls of [ollama.chat],
    the snapshots it yields (the value [json.dumps] serialises on line 108),
    and the two messages its exception handlers print.  Timing logs and the
    other prints are left out. *)
Inductive event : Set :=
| Chat (model system : pystr) (user : value)
| Yield (parsed_content : value)
| DecodeErrorPrinted (content : pystr)
| ErrorInBufferPrinted (last_parsed_content : pystr).

(** A run: its events, and either the value it ends with or the exception
    that leaves it. *)
Definition run (A : Type) : Type := (list event * result A)%type.

(** The loop variables of one model invocation. *)
Record locals : Set := {
  buffer : pystr;
  last_parsed_content : pystr
}.

Definition results_key : pystr := str "results".

(** Line 101: [temp_prefix] cut at its last bracket (or brace) and closed. *)
Definition json_str (temp_prefix content : pystr) : pystr :=
  if contains (json.ch "]") content
  then slice_to temp_prefix (rfind (json.ch "]") temp_prefix) ++ str "]}"
  else slice_to temp_prefix (rfind (json.ch "}") temp_prefix) ++ str "}]}".

(** Lines 103-104: the parse and the merge with the running total. *)
Definition merged_snapshot (results : list value) (js : pystr) : result value :=
  parsed_content <- json.loads js ;;
  partial <- getitem parsed_content results_key ;;
  merged <- list_add results partial ;;
  setitem parsed_content results_key (JArr merged).

(** Lines 97-114: one record that is not the last. *)
Definition on_content (results : list value) (st : locals) (content : pystr)
  : run locals :=
  let temp_prefix := buffer st ++ content in
  if contains (json.ch "]") content || contains (json.ch "}") content
  then
    let js := json_str temp_prefix content in
    match merged_snapshot results js with
    | Ok parsed_content =>
        ([Yield parsed_content],
         Ok {| buffer := buffer st ++ content; last_parsed_content := js |})
    | Raise JSONDecodeError =>
        ([DecodeErrorPrinted content],
         Ok {| buffer := buffer st; last_parsed_content := js |})
    | Raise e => ([], Raise e)
    end
  else
    ([], Ok {| buffer := buffer st ++ content;
               last_parsed_content := last_parsed_content st |}).

(** Lines 90-95: the record that carries [done]. *)
Definition on_done (results : list value) (st : locals) : run (list value) :=
  let extended :=
    parsed <- json.loads (last_parsed_content st) ;;
    partial <- getitem parsed results_key ;;
    extend results partial in
  match extended with
  | Ok results' => ([], Ok results')
  | Raise JSONDecodeError =>
      ([ErrorInBufferPrinted (last_parsed_content st)], Ok results)
  | Raise e => ([], Raise e)
  end.

(** Lines 79-114: the loop over the records of one invocation.  It ends at
    the first record with [done], or when the stream runs out. *)
Fixpoint for_chunk (results : list value) (st : locals) (stream : list chunk)
  : run (list value) :=
  match stream with
  | [] => ([], Ok results)
  | c :: stream' =>
      if done c then on_done results st
      else
        match on_content results st (content c) with
        | (evs, Ok st') =>
            let (evs', r) := for_chunk results st' stream' in (evs ++ evs', r)
        | (evs, Raise e) => (evs, Raise e)
        end
  end.

Definition fresh : locals := {| buffer := []; last_parsed_content := [] |}.

Section Generator.

Variable ollama_chat : pystr -> pystr -> value -> list chunk.

Variables model_name system_prompt : pystr.

(** Lines 76-114: the loop over the prompt chunks. *)
Fixpoint for_prompt_chunk (results : list value) (prompt_chunks : list value)
  : run (list value) :=
  match prompt_chunks with
  | [] => ([], Ok results)
  | prompt_chunk :: rest =>
      let stream := ollama_chat model_name system_prompt prompt_chunk in
      match for_chunk results fresh stream with
      | (evs, Ok results') =>
          let (evs', r) := for_prompt_chunk results' rest in
          (Chat model_name system_prompt prompt_chunk :: evs ++ evs', r)
      | (evs, Raise e) =>
          (Chat model_name system_prompt prompt_chunk :: evs, Raise e)
      end
  end.

(** Lines 71-74. *)
Definition prompt_chunks_of (user_message : value) (chunking : bool)
  : result (list value) :=
  if chunking
  then chunks <- split_into_chunks user_message default_chunk_size ;;
       Ok (map JStr chunks)
  else Ok [user_message].

(** [get_response_stream(model_name, system_prompt, user_message, chunking)],
    run to its end.  The value under [Ok] is the running total [results] when
    the generator finishes. *)
Definition get_response_stream (user_message : value) (chunking : bool)
  : run (list value) :=
  match prompt_chunks_of user_message chunking with
  | Ok prompt_chunks => for_prompt_chunk [] prompt_chunks
  | Raise e => ([], Raise e)
  end.

End Generator.

(* ================================================================= *)
(** ** The handlers *)

(** What a handler returns: [jsonify(body), status], or a [Response] that
    streams a generator. *)
Inductive response : Type :=
| JsonResponse (body : value) (status : Z)
| StreamResponse (body : run (list value)) (content_type : pystr).

Definition no_message : value :=
  JObj [(str "error", JStr (str "No message provided"))].

Section Handlers.

Variable ollama_chat : pystr -> pystr -> value -> list chunk.

(** [data.get('message', '')]. *)
Definition message_of (data : dict) : value :=
  match dict_get data (str "message") with
  | Some v => v
  | None => JStr []
  end.

(** [detect()], [data] being the JSON object of the request. *)
Definition detect (data : dict) : response :=
  let input_text := message_of data in
  if negb (truthy input_text) then JsonResponse no_message 400
  else StreamResponse
         (get_response_stream ollama_chat global_base_model detect_prompt
            input_text true)
         (str "application/json").

(** [abstract()]. *)
Definition abstract (data : dict) : response :=
  let input_text := message_of data in
  if negb (truthy input_text) then JsonResponse no_message 400
  else StreamResponse
         (get_response_stream ollama_chat global_base_model abstract_prompt
            input_text false)
         (str "application/json").

End Handlers.

(** The events of a response, none when no generator was made. *)
Definition events_of (r : response) : list event :=
  match r with
  | JsonResponse _ _ => []
  | StreamResponse (evs, _) _ => evs
  end.

Definition is_chat (e : event) : bool :=
  match e with Chat _ _ _ => true | _ => false end.

(** The model invocations a request makes. *)
Definition invocations (r : response) : list event :=
  filter is_chat (events_of r).

(** The snapshots among some events, in order. *)
Fixpoint snapshots (evs : list event) : list value :=
  match evs with
  | [] => []
  | Yield v :: evs' => v :: snapshots evs'
  | _ :: evs' => snapshots evs'
  end.

(** The result list a snapshot carries. *)
Definition result_list (snapshot : value) : option (list value) :=
  match getitem snapshot results_key with
  | Ok (JArr l) => Some l
  | _ => None
  end.

(* ================================================================= *)
(** * Vocabulary of the properties *)

(** A word: not empty, no whitespace in it. *)
Definition is_word (w : pystr) : Prop := w <> [] /\ existsb isspace w = false.

(** Consecutive runs of [W] items, the last one possibly shorter. *)
Fixpoint chunks_of {A : Type} (fuel W : nat) (l : list A) : list (list A) :=
  match fuel with
  | O => []
  | S fuel' =>
      match l with
      | [] => []
      | _ => firstn W l :: chunks_of fuel' W (skipn W l)
      end
  end.

(** The text parses to an object whose ["results"] is a list. *)
Definition well_shaped (js : pystr) (partial : list value) : Prop :=
  exists parsed,
    json.loads js = Ok parsed /\ getitem parsed results_key = Ok (JArr partial).

(** The record holds a closing bracket or brace (the test on line 100). *)
Definition has_closer (content : pystr) : bool :=
  contains (json.ch "]") content || contains (json.ch "}") content.

(** The records before the one that carries [done], as a loop of its own. *)
Fixpoint for_contents (results : list value) (st : locals) (contents : list pystr)
  : run locals :=
  match contents with
  | [] => ([], Ok st)
  | content :: contents' =>
      match on_content results st content with
      | (evs, Ok st') =>
          let (evs', r) := for_contents results st' contents' in (evs ++ evs', r)
      | (evs, Raise e) => (evs, Raise e)
      end
  end.

(** The stored string either does not parse or is well shaped: it was stored
    on line 102 and, when it parsed, passed lines 103-104. *)
Definition settled (st : locals) : Prop :=
  json.loads (last_parsed_content st) = Raise JSONDecodeError
  \/ exists partial, well_shaped (last_parsed_content st) partial.

(** Snapshot [i + 1] extends snapshot [i], for every [i]. *)
Definition monotone (evs : list event) : Prop :=
  forall i a b,
    nth_error (snapshots evs) i = Some a ->
    nth_error (snapshots evs) (S i) = Some b ->
    exists la lb rest,
      result_list a = Some la /\ result_list b = Some lb /\ lb = la ++ rest.

(* ================================================================= *)
(** ** Sample streams *)

Definition quoted (s : string) : pystr := dquote :: str s ++ [dquote].

Definition delta (s : pystr) : chunk := {| done := false; content := s |}.

Definition last_record : chunk := {| done := true; content := [] |}.

(** An engine that answers every prompt with the same stream. *)
Definition engine (stream : list chunk) : pystr -> pystr -> value -> list chunk :=
  fun _ _ _ => stream.

(** One item, the closing bracket and brace arriving together. *)
Definition jane_stream : list chunk :=
  [ delta (str "{" ++ quoted "results" ++ str ": [{" ++ quoted "text" ++ str ": "
           ++ quoted "Jane" ++ str "}");
    delta (str "]}");
    last_record ].

Definition jane : value := JObj [(str "text", JStr (str "Jane"))].

(** An object that names its list twice. *)
Definition twice_stream : list chunk :=
  [ delta (str "{" ++ quoted "results" ++ str ": [1]");
    delta (str ", " ++ quoted "results" ++ str ": [2]}");
    last_record ].

(** An object with another key than ["results"]. *)
Definition other_key_stream : list chunk :=
  [ delta (str "{" ++ quoted "result" ++ str ": []}");
    last_record ].

(** An item whose text holds a bracket, split after the opening quote and
    before the closing one. *)
Definition bracket_stream : list chunk :=
  [ delta (str "{" ++ quoted "results" ++ str ": [{" ++ quoted "text" ++ str ": "
           ++ [dquote]);
    delta (str "[Jane]");
    delta (dquote :: str "}]}");
    last_record ].

(** A message of 101 words. *)
Definition long_message : pystr := concat (repeat (str "w ") 101).

Definition hundred_words : value := JStr (join (str " ") (repeat (str "w") 100)).

Definition jane_engine := engine jane_stream.

(** The state after the records of [jane_stream] that come before [done]. *)
Definition jane_state : locals :=
  match snd (for_contents [] fresh (map content (firstn 2 jane_stream))) with
  | Ok st => st
  | Raise _ => fresh
  end.

(** The state in which an item's text has just been opened. *)
Definition open_text_state : locals :=
  {| buffer := str "{" ++ quoted "results" ++ str ": [{" ++ quoted "text"
                 ++ str ": " ++ [dquote];
     last_parsed_content := [] |}.

Definition cmu_request : dict := [(str "message", JStr (str "I work at CMU"))].

Definition blank_request : dict := [(str "message", JStr (str "  "))].

(* ================================================================= *)
(** ** Start-up *)




(* ================================================================= *)
(** ** More vocabulary *)

Definition is_decode_error (e : event) : bool :=
  match e with DecodeErrorPrinted _ => true | _ => false end.

(** The records of a stream that can give a snapshot: not the last one, and
    with a closing bracket or brace in them. *)
Definition may_emit (c : chunk) : bool := negb (done c) && has_closer (content c).

(** The values [not x] accepts. *)
Definition falsy (x : value) : Prop :=
  x = JNull \/ x = JBool false \/ x = JInt 0 \/ x = JStr [] \/ x = JArr []
  \/ x = JObj []
  \/ exists m e, x = JFloat m e
                 /\ (m = 0 \/ (e < 0 /\ Z.abs m * 2 ^ 1075 <= 10 ^ (- e))).

(** Two items, each closed in a record of its own, then the closing bracket
    and brace together. *)
Definition two_item_stream : list chunk :=
  [ delta (str "{" ++ quoted "results" ++ str ": [{" ++ quoted "text" ++ str ": "
           ++ quoted "Jane" ++ str "}");
    delta (str ", {" ++ quoted "text" ++ str ": " ++ quoted "Doe" ++ str "}");
    delta (str "]}");
    last_record ].

(** A stream that never closes anything. *)
Definition open_stream : list chunk :=
  [ delta (str "{" ++ quoted "results" ++ str ": ["); delta (str " "); last_record ].

Definition number_request : dict := [(str "message", JInt 5)].

Definition null_request : dict := [(str "message", JNull)].

Definition padded_request : dict :=
  [(str "message", JStr (str "  My  name is Jane "))].

(** One item closed with its bracket, then the closing brace on its own. *)
Definition lone_brace_stream : list chunk :=
  [ delta (str "{" ++ quoted "results" ++ str ": [{" ++ quoted "text" ++ str ": "
           ++ quoted "Jane" ++ str "}]");
    delta (str "}");
    last_record ].

(** The state after the first record of [lone_brace_stream]. *)
Definition lone_brace_state : locals :=
  match snd (for_contents [] fresh (map content (firstn 1 lone_brace_stream))) with
  | Ok st => st
  | Raise _ => fresh
  end.

(** What the invocation for one prompt chunk adds when it starts from the
    empty running total. *)
Definition contribution (ollama_chat : pystr -> pystr -> value -> list chunk)
           (model_name system_prompt : pystr) (prompt_chunk : value) : list value :=
  match snd (for_chunk [] fresh (ollama_chat model_name system_prompt prompt_chunk)) with
  | Ok added => added
  | Raise _ => []
  end.

(* ================================================================= *)
(** * Properties *)

(* ================================================================= *)
(** ** Words, [split] and [join] *)

Lemma split_from_word (w acc rest : pystr) :
  existsb isspace w = false ->
  split_from acc (w ++ rest) = split_from (acc ++ w) rest.
Proof.
  revert acc. induction w as [|c w IH]; intros acc Hw; simpl.
  - now rewrite app_nil_r.
  - simpl in Hw. apply orb_false_iff in Hw as [Hc Hw].
    rewrite Hc, IH by assumption. now rewrite <- app_assoc.
Qed.

Lemma split_from_space (c : N) (acc rest : pystr) :
  isspace c = true -> acc <> [] ->
  split_from acc (c :: rest) = acc :: split_from [] rest.
Proof.
  intros Hc Hacc. simpl. rewrite Hc. destruct acc; congruence.
Qed.

Lemma join_cons (sep w : pystr) (rest : list pystr) :
  rest <> [] -> join sep (w :: rest) = w ++ sep ++ join sep rest.
Proof. destruct rest; [congruence | reflexivity]. Qed.

Lemma join_app (sep : pystr) (l1 l2 : list pystr) :
  l1 <> [] -> l2 <> [] ->
  join sep (l1 ++ l2) = join sep l1 ++ sep ++ join sep l2.
Proof.
  induction l1 as [|w l1 IH]; intros H1 H2; [congruence|].
  destruct l1 as [|w' l1].
  - simpl app. now rewrite join_cons.
  - change ((w :: w' :: l1) ++ l2) with (w :: ((w' :: l1) ++ l2)).
    rewrite join_cons by discriminate.
    rewrite IH by (discriminate || assumption).
    rewrite (@join_cons sep w (w' :: l1)) by discriminate.
    now rewrite <- !app_assoc.
Qed.

(** Splitting undoes joining words with single spaces. *)
Lemma split_join (ws : list pystr) :
  Forall is_word ws -> split (join (str " ") ws) = ws.
Proof.
  unfold split. induction 1 as [|w ws [Hne Hsp] Hws IH]; [reflexivity|].
  destruct ws as [|w' ws].
  - simpl join. pose proof (@split_from_word w [] [] Hsp) as E.
    rewrite app_nil_r in E. rewrite E. simpl. destruct w; congruence.
  - rewrite join_cons by discriminate.
    rewrite split_from_word by assumption. simpl app at 1.
    change (str " " ++ join (str " ") (w' :: ws))
      with (32%N :: join (str " ") (w' :: ws)).
    rewrite split_from_space by (reflexivity || assumption).
    now rewrite IH.
Qed.

(** Every item [split] returns is a word. *)
Lemma split_from_words (s acc : pystr) :
  existsb isspace acc = false -> Forall is_word (split_from acc s).
Proof.
  revert acc. induction s as [|c s IH]; intros acc Hacc; simpl.
  - destruct acc; constructor; [split; [discriminate | assumption] | constructor].
  - destruct (isspace c) eqn:Hc.
    + destruct acc.
      * now apply IH.
      * constructor; [split; [discriminate | assumption] | now apply IH].
    + apply IH. rewrite existsb_app, Hacc. simpl. now rewrite Hc.
Qed.

Lemma split_words (s : pystr) : Forall is_word (split s).
Proof. now apply split_from_words. Qed.

(** Text made of whitespace only has no word. *)
Lemma split_whitespace (s : pystr) : forallb isspace s = true -> split s = [].
Proof.
  unfold split. induction s as [|c s IH]; [reflexivity|]. simpl.
  intros H. apply andb_true_iff in H as [Hc Hs]. rewrite Hc. now apply IH.
Qed.

(* ================================================================= *)
(** ** Grouping by [range] and slices *)

Section Chunks.

Variable A : Type.

Lemma slice_window (l : list A) (i W : Z) :
  0 <= i < len l -> 1 <= W ->
  slice l i (i + W) = firstn (Z.to_nat W) (skipn (Z.to_nat i) l).
Proof.
  unfold slice, clamp, len. intros Hi HW.
  destruct (Z.ltb_spec i 0); [lia|].
  destruct (Z.ltb_spec (i + W) 0); [lia|].
  rewrite (Z.min_l i) by lia.
  destruct (Z.le_gt_cases (i + W) (Z.of_nat (length l))).
  - rewrite (Z.min_l (i + W)) by lia. f_equal. lia.
  - rewrite (Z.min_r (i + W)) by lia.
    rewrite !firstn_all2; trivial; rewrite length_skipn; lia.
Qed.

(** The slices taken at the values of [range] are the runs of [chunks_of]. *)
Lemma range_slices (l : list A) (W : Z) (fuel : nat) (i : Z) :
  0 <= i -> 1 <= W ->
  map (fun i => slice l i (i + W)) (range_up fuel i (len l) W)
  = chunks_of fuel (Z.to_nat W) (skipn (Z.to_nat i) l).
Proof.
  intros Hi HW. revert i Hi. induction fuel as [|fuel IH]; intros i Hi; [reflexivity|].
  simpl. destruct (Z.ltb_spec i (len l)) as [Hlt|Hge].
  - destruct (skipn (Z.to_nat i) l) as [|a tl] eqn:E.
    + apply (f_equal (@length A)) in E. rewrite length_skipn in E.
      unfold len in Hlt. simpl in E. lia.
    + rewrite <- E. simpl map. rewrite slice_window by lia. f_equal.
      rewrite IH by lia. f_equal. rewrite skipn_skipn. f_equal. lia.
  - rewrite skipn_all2 by (unfold len in Hge; lia). reflexivity.
Qed.

Lemma chunks_of_concat (W fuel : nat) (l : list A) :
  (1 <= W)%nat -> (length l <= fuel)%nat -> concat (chunks_of fuel W l) = l.
Proof.
  intros HW. revert l. induction fuel as [|fuel IH]; intros l Hl.
  - destruct l; [reflexivity | simpl in Hl; lia].
  - destruct l as [|a l]; [reflexivity|].
    cbn [chunks_of concat]. rewrite IH.
    + apply firstn_skipn.
    + rewrite length_skipn. cbn [length] in *. lia.
Qed.

Lemma chunks_of_bounded (W fuel : nat) (l : list A) :
  (1 <= W)%nat ->
  Forall (fun c => c <> [] /\ (length c <= W)%nat) (chunks_of fuel W l).
Proof.
  intros HW. revert l. induction fuel as [|fuel IH]; intros l; [constructor|].
  destruct l as [|a l]; [constructor|]. cbn [chunks_of]. constructor; [|apply IH].
  split.
  - destruct W; [lia | discriminate].
  - rewrite length_firstn. lia.
Qed.

(** The number of runs is the ceiling of [length l / W]. *)
Lemma chunks_of_count (W fuel : nat) (l : list A) :
  (1 <= W)%nat -> (length l <= fuel)%nat ->
  let k := length (chunks_of fuel W l) in
  ((k - 1) * W < length l /\ length l <= k * W)%nat \/ (k = 0%nat /\ l = []).
Proof.
  intros HW. revert l. induction fuel as [|fuel IH]; intros l Hl.
  - right. destruct l; [now split | simpl in Hl; lia].
  - destruct l as [|a l]; [now right|]. left. cbn [chunks_of length].
    specialize (IH (skipn W (a :: l))).
    rewrite length_skipn in IH. cbv zeta in IH.
    destruct IH as [[Hlo Hhi]|[Hk Hnil]]; [cbn [length] in *; lia | |].
    + simpl length in *. nia.
    + rewrite Hk. apply (f_equal (@length A)) in Hnil.
      rewrite length_skipn in Hnil. simpl length in *. lia.
Qed.

End Chunks.

Lemma join_concat (sep : pystr) (cs : list (list pystr)) :
  Forall (fun c => c <> []) cs ->
  join sep (map (join sep) cs) = join sep (concat cs).
Proof.
  induction 1 as [|c cs Hc Hcs IH]; [reflexivity|].
  destruct cs as [|c' cs].
  - simpl. now rewrite app_nil_r.
  - change (map (join sep) (c :: c' :: cs))
      with (join sep c :: map (join sep) (c' :: cs)).
    rewrite join_cons by discriminate. rewrite IH.
    change (concat (c :: c' :: cs)) with (c ++ concat (c' :: cs)).
    rewrite join_app; trivial.
    inversion Hcs as [|? ? Hc' _]; subst. simpl. destruct c'; [congruence | discriminate].
Qed.

Lemma Forall_concat_chunks (P : pystr -> Prop) (cs : list (list pystr)) :
  Forall P (concat cs) -> Forall (Forall P) cs.
Proof.
  induction cs as [|c cs IH]; intros H; [constructor|].
  simpl in H. apply Forall_app in H as [Hc Hcs]. constructor; auto.
Qed.

(* ================================================================= *)
(** ** The chunker *)

(** With a positive chunk size the chunker is the grouping [chunks_of] of the
    words, each group joined by single spaces. *)
Lemma split_into_chunks_groups (input_text : pystr) (W : Z) :
  1 <= W ->
  split_into_chunks (JStr input_text) W
  = Ok (map (join (str " "))
          (chunks_of (length (split input_text)) (Z.to_nat W) (split input_text))).
Proof.
  intros HW. unfold split_into_chunks, method_split, bind, range.
  destruct (Z.eqb_spec W 0); [lia|].
  destruct (Z.ltb_spec 0 W); [|lia].
  f_equal. rewrite <- (map_map (fun i => slice (split input_text) i (i + W))).
  rewrite range_slices by lia. simpl skipn. f_equal. f_equal.
  unfold len. lia.
Qed.

(** C4. For every input text and every maximum word count [W >= 1], the
    chunker returns segments of at most [W] words each; joining the segments
    with single spaces gives the whitespace-normalised text (its words joined
    with single spaces); and the number [k] of segments is the ceiling of
    [wordCount / W], that is [(k - 1) * W < wordCount <= k * W]. *)
Theorem split_into_chunks_spec (input_text : pystr) (W : Z) :
  1 <= W ->
  exists segments,
    split_into_chunks (JStr input_text) W = Ok segments
    /\ Forall (fun segment => len (split segment) <= W) segments
    /\ join (str " ") segments = join (str " ") (split input_text)
    /\ (len segments - 1) * W < len (split input_text) <= len segments * W.
Proof.
  intros HW. rewrite split_into_chunks_groups by assumption.
  set (words := split input_text).
  set (cs := chunks_of (length words) (Z.to_nat W) words).
  assert (Hcat : concat cs = words) by (apply chunks_of_concat; lia).
  assert (Hb : Forall (fun c => c <> [] /\ (length c <= Z.to_nat W)%nat) cs)
    by (apply chunks_of_bounded; lia).
  assert (Hw : Forall (Forall is_word) cs).
  { apply Forall_concat_chunks. rewrite Hcat. apply split_words. }
  eexists. split; [reflexivity|]. split; [|split].
  - apply Forall_map. rewrite Forall_forall in *. intros c Hc.
    rewrite split_join by auto. destruct (Hb c Hc) as [_ Hlen]. unfold len. lia.
  - rewrite join_concat, Hcat; trivial.
    eapply Forall_impl; [|exact Hb]. now intros c [Hne _].
  - unfold len. rewrite length_map. fold cs.
    assert (HW' : (1 <= Z.to_nat W)%nat) by lia.
    pose proof (@chunks_of_count _ (Z.to_nat W) (length words) words HW' (le_n _))
      as Hcount.
    cbv zeta in Hcount. fold cs in Hcount.
    destruct Hcount as [[Hlo Hhi]|[Hk Hnil]].
    + nia.
    + apply (f_equal (@length pystr)) in Hnil. simpl in Hnil. lia.
Qed.

Lemma split_into_chunks_spec_witness :
  exists segments,
    split_into_chunks (JStr (str "  My name   is Jane Doe ")) 2 = Ok segments
    /\ Forall (fun segment => len (split segment) <= 2) segments
    /\ join (str " ") segments = join (str " ") (split (str "  My name   is Jane Doe "))
    /\ (len segments - 1) * 2 < len (split (str "  My name   is Jane Doe "))
       <= len segments * 2.
Proof. apply (@split_into_chunks_spec (str "  My name   is Jane Doe ") 2). lia. Defined.

Example split_into_chunks_example :
  split_into_chunks (JStr (str "  My name   is Jane Doe ")) 2
  = Ok [str "My name"; str "is Jane"; str "Doe"].
Proof. reflexivity. Qed.

(* ================================================================= *)
(** ** Values and the decoder *)

Lemma str_eqb_refl (k : pystr) : str_eqb k k = true.
Proof. induction k as [|c k IH]; simpl; [reflexivity|]. now rewrite N.eqb_refl. Qed.


(** Reading a key that was just stored gives the stored value. *)
Lemma dict_get_set (d : dict) (k : pystr) (v : value) :
  dict_get (dict_set d k v) k = Some v.
Proof.
  induction d as [|[k' v'] d IH]; simpl.
  - now rewrite str_eqb_refl.
  - destruct (str_eqb k' k) eqn:E; simpl; rewrite E; [reflexivity | exact IH].
Qed.

(** The decoder fails in one way only. *)
Lemma loads_raise (s : pystr) (e : exn) :
  json.loads s = Raise e -> e = JSONDecodeError.
Proof.
  unfold json.loads. destruct (json.lex _ _); [|congruence].
  destruct (json.parse _ _ _); congruence.
Qed.

Lemma loads_cases (s : pystr) :
  (exists parsed, json.loads s = Ok parsed) \/ json.loads s = Raise JSONDecodeError.
Proof.
  destruct (json.loads s) as [parsed|e] eqn:E; [eauto|].
  right. now rewrite (loads_raise _ E).
Qed.

Lemma result_list_getitem (x : value) (l : list value) :
  result_list x = Some l <-> getitem x results_key = Ok (JArr l).
Proof.
  unfold result_list. destruct (getitem x results_key) as [[]|]; split; congruence.
Qed.

Lemma getitem_raise (x k : _) (e : exn) :
  getitem x k = Raise e -> e = KeyError \/ e = TypeError.
Proof.
  destruct x; simpl; try (intros [= <-]; now right).
  destruct (dict_get pairs k); [discriminate|]. intros [= <-]. now left.
Qed.

(* ================================================================= *)
(** ** One record of the stream *)

(** Lines 103-104 succeed exactly on well-shaped text, and the snapshot then
    carries the running total followed by the parsed list. *)
Lemma merged_snapshot_ok (results : list value) (js : pystr) (snapshot : value) :
  merged_snapshot results js = Ok snapshot ->
  exists partial,
    well_shaped js partial /\ result_list snapshot = Some (results ++ partial).
Proof.
  unfold merged_snapshot, bind.
  destruct (json.loads js) as [parsed|] eqn:Hl; [|discriminate].
  destruct (getitem parsed results_key) as [x|] eqn:Hg; [|discriminate].
  destruct x; simpl; try discriminate.
  destruct parsed; simpl in *; try discriminate.
  intros [= <-]. exists items. split.
  - exists (JObj pairs). now split.
  - unfold result_list. simpl. now rewrite dict_get_set.
Qed.

Lemma merged_snapshot_well_shaped (results : list value) (js : pystr)
      (partial : list value) :
  well_shaped js partial ->
  exists snapshot, merged_snapshot results js = Ok snapshot.
Proof.
  intros (parsed & Hl & Hg). unfold merged_snapshot, bind. rewrite Hl, Hg. simpl.
  destruct parsed; simpl in *; try discriminate. eauto.
Qed.

(** When they raise, either the decoder failed or the shape is not the
    expected one. *)
Lemma merged_snapshot_raise (results : list value) (js : pystr) (e : exn) :
  merged_snapshot results js = Raise e ->
  (e = JSONDecodeError /\ json.loads js = Raise JSONDecodeError)
  \/ ((e = KeyError \/ e = TypeError)
      /\ exists parsed, json.loads js = Ok parsed /\ result_list parsed = None).
Proof.
  unfold merged_snapshot, bind.
  destruct (json.loads js) as [parsed|e'] eqn:Hl.
  - intros H. right.
    destruct (getitem parsed results_key) as [x|e'] eqn:Hg.
    + assert (Hnone : result_list parsed = None /\ e = TypeError).
      { unfold result_list. rewrite Hg.
        destruct x; simpl in H; try (injection H as <-; now split).
        destruct parsed; simpl in *; discriminate. }
      destruct Hnone as [Hnone ->]. split; [now right | eauto].
    + injection H as <-. split; [eapply getitem_raise; eauto|].
      exists parsed. split; [reflexivity|]. unfold result_list. now rewrite Hg.
  - intros [= <-]. left. rewrite (loads_raise _ Hl) in *. now split.
Qed.

(** A record without bracket or brace: appended, nothing emitted. *)
Lemma on_content_plain (results : list value) (st : locals) (content : pystr) :
  has_closer content = false ->
  on_content results st content
  = ([], Ok {| buffer := buffer st ++ content;
               last_parsed_content := last_parsed_content st |}).
Proof. unfold on_content, has_closer. now intros ->. Qed.


(** The three ways a record can go. *)
Lemma on_content_cases (results : list value) (st : locals) (content : pystr) :
  let js := json_str (buffer st ++ content) content in
  (has_closer content = false
   /\ on_content results st content
      = ([], Ok {| buffer := buffer st ++ content;
                   last_parsed_content := last_parsed_content st |}))
  \/ (exists snapshot partial,
        well_shaped js partial
        /\ result_list snapshot = Some (results ++ partial)
        /\ on_content results st content
           = ([Yield snapshot],
              Ok {| buffer := buffer st ++ content; last_parsed_content := js |}))
  \/ (json.loads js = Raise JSONDecodeError
      /\ on_content results st content
         = ([DecodeErrorPrinted content],
            Ok {| buffer := buffer st; last_parsed_content := js |}))
  \/ (exists e parsed,
        (e = KeyError \/ e = TypeError)
        /\ json.loads js = Ok parsed /\ result_list parsed = None
        /\ on_content results st content = ([], Raise e)).
Proof.
  intros js. destruct (has_closer content) eqn:Hc.
  - right. unfold on_content. fold (has_closer content). rewrite Hc. fold js.
    destruct (merged_snapshot results js) as [snapshot|e] eqn:Hm.
    + left. destruct (merged_snapshot_ok _ _ Hm) as (partial & Hw & Hr).
      exists snapshot, partial. auto.
    + right. destruct (merged_snapshot_raise _ _ Hm) as [[-> Hl]|[He (parsed & Hl & Hn)]].
      * left. auto.
      * right. exists e, parsed. destruct He as [-> | ->]; auto.
  - left. split; [reflexivity|]. now apply on_content_plain.
Qed.

(* ================================================================= *)
(** ** One model invocation *)

Lemma settled_fresh : settled fresh.
Proof. left. reflexivity. Qed.

Lemma on_content_settled (results : list value) (st st' : locals)
      (content : pystr) (evs : list event) :
  settled st -> on_content results st content = (evs, Ok st') -> settled st'.
Proof.
  intros Hs H.
  destruct (on_content_cases results st content)
    as [[_ E]|[(s & p & Hw & _ & E)|[[Hl E]|(e & parsed & _ & _ & _ & E)]]];
    rewrite E in H; try discriminate; injection H as _ <-.
  - exact Hs.
  - right. simpl. eauto.
  - left. exact Hl.
Qed.

Lemma for_contents_settled (results : list value) (contents : list pystr) :
  forall st st' evs,
    settled st -> for_contents results st contents = (evs, Ok st') -> settled st'.
Proof.
  induction contents as [|content contents IH]; intros st st' evs Hs H; simpl in H.
  - now injection H as _ <-.
  - destruct (on_content results st content) as [evs1 [st1|e]] eqn:E; [|discriminate].
    destruct (for_contents results st1 contents) as [evs2 r] eqn:E2.
    injection H as _ ->. eapply IH; [|exact E2]. eapply on_content_settled; eauto.
Qed.

(** The record with [done], from a settled state: the stored string is
    parsed; a well-shaped one extends the running total, one that does not
    parse is reported and leaves the total as it was. *)
Lemma on_done_cases (results : list value) (st : locals) :
  settled st ->
  (exists partial,
      well_shaped (last_parsed_content st) partial
      /\ on_done results st = ([], Ok (results ++ partial)))
  \/ (json.loads (last_parsed_content st) = Raise JSONDecodeError
      /\ on_done results st
         = ([ErrorInBufferPrinted (last_parsed_content st)], Ok results)).
Proof.
  intros [Hl|(partial & parsed & Hl & Hg)]; unfold on_done, bind; rewrite Hl.
  - right. now split.
  - left. exists partial. rewrite Hg. simpl. split; [|reflexivity].
    exists parsed. now split.
Qed.

Lemma extend_grows (results results' : list value) (x : value) :
  extend results x = Ok results' -> exists added, results' = results ++ added.
Proof. destruct x; simpl; try discriminate; intros [= <-]; eauto. Qed.

Lemma on_done_grows (results results' : list value) (st : locals) (evs : list event) :
  on_done results st = (evs, Ok results') ->
  snapshots evs = [] /\ filter is_chat evs = []
  /\ exists added, results' = results ++ added.
Proof.
  unfold on_done, bind.
  destruct (json.loads (last_parsed_content st)) as [parsed|e] eqn:Hl.
  - destruct (getitem parsed results_key) as [x|[]] eqn:Hg; try discriminate;
      [destruct (extend results x) as [r|[]] eqn:He; try discriminate|];
      intros [= <- <-]; repeat split; trivial;
      solve [eapply extend_grows; eauto | exists []; now rewrite app_nil_r].
  - rewrite (loads_raise _ Hl). intros [= <- <-]. repeat split; trivial.
    exists []. now rewrite app_nil_r.
Qed.

Lemma on_done_quiet (results : list value) (st : locals) :
  snapshots (fst (on_done results st)) = []
  /\ filter is_chat (fst (on_done results st)) = [].
Proof.
  unfold on_done, bind.
  destruct (json.loads (last_parsed_content st)) as [parsed|e] eqn:Hl.
  - destruct (getitem parsed results_key) as [x|[]]; try (now split).
    destruct (extend results x) as [r|[]]; now split.
  - rewrite (loads_raise _ Hl). now split.
Qed.

Lemma snapshots_app (a b : list event) :
  snapshots (a ++ b) = snapshots a ++ snapshots b.
Proof.
  induction a as [|[] a IH]; simpl; trivial. now rewrite IH.
Qed.

(** What one record emits. *)
Lemma on_content_yields (results : list value) (st : locals) (content : pystr)
      (snapshot : value) :
  In snapshot (snapshots (fst (on_content results st content))) ->
  exists partial,
    well_shaped (json_str (buffer st ++ content) content) partial
    /\ result_list snapshot = Some (results ++ partial).
Proof.
  destruct (on_content_cases results st content)
    as [[_ E]|[(s & p & Hw & Hr & E)|[[Hl E]|(e & parsed & _ & _ & _ & E)]]];
    rewrite E; simpl; try tauto.
  intros [<-|[]]. eauto.
Qed.

Lemma on_content_no_chat (results : list value) (st : locals) (content : pystr) :
  filter is_chat (fst (on_content results st content)) = [].
Proof.
  destruct (on_content_cases results st content)
    as [[_ E]|[(s & p & Hw & Hr & E)|[[Hl E]|(e & parsed & _ & _ & _ & E)]]];
    now rewrite E.
Qed.

(** Every snapshot of one invocation carries the running total it started
    with, followed by what some repaired prefix parsed to. *)
Lemma for_chunk_yields (results : list value) (stream : list chunk) :
  forall st snapshot,
    In snapshot (snapshots (fst (for_chunk results st stream))) ->
    exists c buffer partial,
      In c stream /\ done c = false
      /\ well_shaped (json_str (buffer ++ content c) (content c)) partial
      /\ result_list snapshot = Some (results ++ partial).
Proof.
  induction stream as [|c stream IH]; intros st snapshot; simpl; [tauto|].
  destruct (done c) eqn:Hd.
  - destruct (on_done_quiet results st) as [-> _]. simpl. tauto.
  - pose proof (@on_content_yields results st (content c) snapshot) as Hy.
    destruct (on_content results st (content c)) as [evs [st'|e]] eqn:E.
    + specialize (IH st' snapshot).
      destruct (for_chunk results st' stream) as [evs' r]. simpl in *.
      rewrite snapshots_app, in_app_iff. intros [H|H].
      * destruct (Hy H) as (partial & Hw & Hr).
        exists c, (buffer st), partial. auto.
      * destruct (IH H) as (c' & b & p & Hin & Hrest). exists c', b, p. auto.
    + simpl in *. intros H. destruct (Hy H) as (partial & Hw & Hr).
      exists c, (buffer st), partial. auto.
Qed.

(** An invocation makes no call of its own and only appends to the total. *)
Lemma for_chunk_no_chat (results : list value) (stream : list chunk) :
  forall st, filter is_chat (fst (for_chunk results st stream)) = [].
Proof.
  induction stream as [|c stream IH]; intros st; simpl; trivial.
  destruct (done c); [apply on_done_quiet|].
  pose proof (on_content_no_chat results st (content c)) as Hn.
  destruct (on_content results st (content c)) as [evs [st'|e]]; trivial.
  specialize (IH st'). destruct (for_chunk results st' stream) as [evs' r].
  simpl in *. now rewrite filter_app, Hn, IH.
Qed.

Lemma for_chunk_grows (results : list value) (stream : list chunk) :
  forall st evs results',
    for_chunk results st stream = (evs, Ok results') ->
    exists added, results' = results ++ added.
Proof.
  induction stream as [|c stream IH]; intros st evs results'; simpl.
  - intros [= _ <-]. exists []. now rewrite app_nil_r.
  - destruct (done c).
    + intros H. now apply on_done_grows in H.
    + destruct (on_content results st (content c)) as [evs1 [st'|e]]; [|discriminate].
      destruct (for_chunk results st' stream) as [evs2 r] eqn:E.
      intros [= _ ->]. eauto.
Qed.


(** An invocation whose stream reaches [done]: the loop over the records
    before it, then lines 90-95. *)
Lemma for_chunk_until_done (results : list value) (pre : list chunk) (c : chunk)
      (post : list chunk) :
  Forall (fun c => done c = false) pre -> done c = true ->
  forall st,
    for_chunk results st (pre ++ c :: post)
    = match for_contents results st (map content pre) with
      | (evs, Ok st') => let (evs', r) := on_done results st' in (evs ++ evs', r)
      | (evs, Raise e) => (evs, Raise e)
      end.
Proof.
  intros Hpre Hc. induction Hpre as [|c0 pre Hc0 Hpre IH]; intros st; simpl.
  - rewrite Hc. now destruct (on_done results st).
  - rewrite Hc0. destruct (on_content results st (content c0)) as [evs [st'|e]]; trivial.
    rewrite IH. destruct (for_contents results st' (map content pre)) as [evs1 [st1|e]].
    + destruct (on_done results st1). now rewrite app_assoc.
    + reflexivity.
Qed.

(* ================================================================= *)
(** ** The loop over the prompt chunks *)

Section GeneratorFacts.

Variable ollama_chat : pystr -> pystr -> value -> list chunk.
Variables model_name system_prompt : pystr.

Local Abbreviation loop := (for_prompt_chunk ollama_chat model_name system_prompt).
Local Abbreviation call := (Chat model_name system_prompt).

(** A chunk whose invocation ends without raising hands its running total
    to the chunks after it. *)
Lemma for_prompt_chunk_next (results results' : list value) (prompt_chunk : value)
      (rest : list value) (evs : list event) :
  for_chunk results fresh (ollama_chat model_name system_prompt prompt_chunk)
  = (evs, Ok results') ->
  loop results (prompt_chunk :: rest)
  = (call prompt_chunk :: evs ++ fst (loop results' rest), snd (loop results' rest)).
Proof.
  intros H. simpl. rewrite H. now destruct (loop results' rest).
Qed.

Lemma for_prompt_chunk_app (cs1 cs2 : list value) :
  forall results evs1 results1,
    loop results cs1 = (evs1, Ok results1) ->
    loop results (cs1 ++ cs2)
    = (evs1 ++ fst (loop results1 cs2), snd (loop results1 cs2)).
Proof.
  induction cs1 as [|c cs1 IH]; intros results evs1 results1; simpl.
  - intros [= <- <-]. now destruct (loop results cs2).
  - destruct (for_chunk results fresh (ollama_chat model_name system_prompt c))
      as [evs [results'|e]]; [|discriminate].
    destruct (loop results' cs1) as [evs' r] eqn:E. intros [= <- ->].
    rewrite (IH _ _ _ E). simpl. now rewrite app_assoc.
Qed.

Lemma for_prompt_chunk_grows (cs : list value) :
  forall results evs results',
    loop results cs = (evs, Ok results') ->
    exists added, results' = results ++ added.
Proof.
  induction cs as [|c cs IH]; intros results evs results'; simpl.
  - intros [= _ <-]. exists []. now rewrite app_nil_r.
  - destruct (for_chunk results fresh (ollama_chat model_name system_prompt c))
      as [evs1 [results1|e]] eqn:E1; [|discriminate].
    destruct (loop results1 cs) as [evs2 r] eqn:E2. intros [= _ ->].
    destruct (for_chunk_grows _ _ _ E1) as [a1 ->].
    destruct (IH _ _ _ E2) as [a2 ->]. exists (a1 ++ a2). now rewrite app_assoc.
Qed.

(** Every snapshot begins with the running total the loop started from. *)
Lemma for_prompt_chunk_yields (cs : list value) :
  forall results snapshot,
    In snapshot (snapshots (fst (loop results cs))) ->
    exists rest, result_list snapshot = Some (results ++ rest).
Proof.
  induction cs as [|c cs IH]; intros results snapshot; simpl; [tauto|].
  pose proof (@for_chunk_yields results
                (ollama_chat model_name system_prompt c) fresh snapshot) as Hy.
  destruct (for_chunk results fresh (ollama_chat model_name system_prompt c))
    as [evs1 [results1|e]] eqn:E1; simpl in *.
  - specialize (IH results1 snapshot).
    destruct (loop results1 cs) as [evs2 r]. simpl in *.
    rewrite snapshots_app, in_app_iff. intros [H|H].
    + destruct (Hy H) as (_ & _ & partial & _ & _ & _ & Hr). eauto.
    + destruct (for_chunk_grows _ _ _ E1) as [added ->].
      destruct (IH H) as [rest Hr]. exists (added ++ rest). now rewrite app_assoc.
  - intros H. destruct (Hy H) as (_ & _ & partial & _ & _ & _ & Hr). eauto.
Qed.


End GeneratorFacts.

(* ================================================================= *)
(** ** The response generator *)

Section Claims.

Variable ollama_chat : pystr -> pystr -> value -> list chunk.
Variables model_name system_prompt : pystr.

Local Abbreviation loop := (for_prompt_chunk ollama_chat model_name system_prompt).
Local Abbreviation call := (Chat model_name system_prompt).
Local Abbreviation invoke := (ollama_chat model_name system_prompt).

(** C1 (amended). Results that have been merged into the running total are
    never removed or reordered: when the prompt chunks [cs1] are complete
    with running total [results1], the events of the request are those of
    [cs1] followed by events all of whose snapshots carry a result list that
    begins with [results1], and the total the request ends with begins with
    [results1] too. *)
Theorem finalized_results_persist (user_message : value) (chunking : bool)
        (cs1 cs2 : list value) (evs1 : list event) (results1 : list value) :
  prompt_chunks_of user_message chunking = Ok (cs1 ++ cs2) ->
  loop [] cs1 = (evs1, Ok results1) ->
  exists evs2,
    fst (get_response_stream ollama_chat model_name system_prompt
           user_message chunking) = evs1 ++ evs2
    /\ Forall (fun snapshot =>
                 exists rest, result_list snapshot = Some (results1 ++ rest))
         (snapshots evs2)
    /\ forall final,
        snd (get_response_stream ollama_chat model_name system_prompt
               user_message chunking) = Ok final ->
        exists added, final = results1 ++ added.
Proof.
  intros Hcs H1. unfold get_response_stream. rewrite Hcs.
  rewrite (for_prompt_chunk_app _ _ _ _ cs2 _ H1). simpl.
  exists (fst (loop results1 cs2)). split; [reflexivity|]. split.
  - apply Forall_forall. intros snapshot Hin.
    now apply for_prompt_chunk_yields in Hin.
  - intros final Hfinal. destruct (loop results1 cs2) as [evs2 r] eqn:E.
    simpl in Hfinal. subst r. eapply for_prompt_chunk_grows; eauto.
Qed.


(** C6. When the stream of a prompt chunk reaches the record with [done]
    after the records [pre], the stored string is parsed: if it parses, its
    result list is appended to the running total; if it does not, the total
    stays as it was and the failure is printed, not raised.  Either way the
    invocation ends without raising and the loop goes on with the remaining
    chunks from that total. *)
Theorem done_finalizes_chunk (results : list value) (prompt_chunk : value)
        (rest : list value) (pre post : list chunk) (c : chunk)
        (evs : list event) (st : locals) :
  invoke prompt_chunk = pre ++ c :: post ->
  Forall (fun c => done c = false) pre -> done c = true ->
  for_contents results fresh (map content pre) = (evs, Ok st) ->
  exists evs' results',
    ((exists partial,
         well_shaped (last_parsed_content st) partial
         /\ evs' = evs /\ results' = results ++ partial)
     \/ (json.loads (last_parsed_content st) = Raise JSONDecodeError
         /\ evs' = evs ++ [ErrorInBufferPrinted (last_parsed_content st)]
         /\ results' = results))
    /\ for_chunk results fresh (invoke prompt_chunk) = (evs', Ok results')
    /\ loop results (prompt_chunk :: rest)
       = (call prompt_chunk :: evs' ++ fst (loop results' rest),
          snd (loop results' rest)).
Proof.
  intros Hs Hpre Hc Hrun.
  assert (Hst : settled st)
    by (eapply for_contents_settled; [apply settled_fresh | exact Hrun]).
  assert (Hfc : for_chunk results fresh (invoke prompt_chunk)
                = (let (evs', r) := on_done results st in (evs ++ evs', r))).
  { rewrite Hs, for_chunk_until_done by assumption. now rewrite Hrun. }
  destruct (on_done_cases results Hst) as [(partial & Hw & E)|[Hl E]];
    rewrite E in Hfc.
  - exists evs, (results ++ partial). rewrite app_nil_r in Hfc.
    split; [left; eauto|]. split; [exact Hfc|]. now apply for_prompt_chunk_next.
  - exists (evs ++ [ErrorInBufferPrinted (last_parsed_content st)]), results.
    split; [right; auto|]. split; [exact Hfc|]. now apply for_prompt_chunk_next.
Qed.


End Claims.

(* ================================================================= *)
(** ** The handlers *)

Section HandlerClaims.

Variable ollama_chat : pystr -> pystr -> value -> list chunk.

(** C7. A request whose message is missing or empty is answered by both
    handlers with status 400 and the body [{"error": "No message provided"}],
    and makes no model invocation. *)
Theorem empty_message_rejected (data : dict) :
  dict_get data (str "message") = None
  \/ dict_get data (str "message") = Some (JStr []) ->
  detect ollama_chat data
  = JsonResponse (JObj [(str "error", JStr (str "No message provided"))]) 400
  /\ abstract ollama_chat data
     = JsonResponse (JObj [(str "error", JStr (str "No message provided"))]) 400
  /\ invocations (detect ollama_chat data) = []
  /\ invocations (abstract ollama_chat data) = [].
Proof.
  intros H.
  assert (Hm : message_of data = JStr [])
    by (unfold message_of; destruct H as [-> | ->]; reflexivity).
  unfold detect, abstract. rewrite Hm. simpl. auto.
Qed.

(** C9. A request to [/abstract] with a non-empty message makes exactly one
    model invocation, whose user content is the whole message, and the
    invocation runs with the empty running total: each of its snapshots
    carries just the list parsed from a repaired prefix. *)
Theorem abstract_single_invocation (data : dict) (message : pystr) :
  dict_get data (str "message") = Some (JStr message) ->
  message <> [] ->
  exists evs r,
    for_chunk [] fresh (ollama_chat global_base_model abstract_prompt (JStr message))
    = (evs, r)
    /\ abstract ollama_chat data
       = StreamResponse
           (Chat global_base_model abstract_prompt (JStr message) :: evs,
            r)
           (str "application/json")
    /\ invocations (abstract ollama_chat data)
       = [Chat global_base_model abstract_prompt (JStr message)]
    /\ Forall (fun snapshot =>
                 exists c buffer partial,
                   well_shaped (json_str (buffer ++ content c) (content c)) partial
                   /\ result_list snapshot = Some partial)
         (snapshots evs).
Proof.
  intros Hget Hne.
  assert (Hm : message_of data = JStr message)
    by (unfold message_of; now rewrite Hget).
  assert (Ht : truthy (JStr message) = true) by (destruct message; simpl; congruence).
  pose proof (for_chunk_no_chat []
                (ollama_chat global_base_model abstract_prompt (JStr message)) fresh)
    as Hquiet.
  pose proof (@for_chunk_yields []
                (ollama_chat global_base_model abstract_prompt (JStr message)) fresh)
    as Hy.
  destruct (for_chunk [] fresh
              (ollama_chat global_base_model abstract_prompt (JStr message)))
    as [evs r] eqn:E.
  exists evs, r. split; [reflexivity|].
  assert (Ha : abstract ollama_chat data
               = StreamResponse
                   (Chat global_base_model abstract_prompt (JStr message) :: evs, r)
                   (str "application/json")).
  { unfold abstract. rewrite Hm, Ht. cbn [negb].
    unfold get_response_stream, prompt_chunks_of. cbn [for_prompt_chunk].
    rewrite E. destruct r; [now rewrite app_nil_r | reflexivity]. }
  split; [exact Ha|]. split.
  - rewrite Ha. unfold invocations. cbn [events_of filter is_chat].
    simpl in Hquiet. now rewrite Hquiet.
  - apply Forall_forall. intros snapshot Hin.
    destruct (Hy snapshot Hin) as (c & b & p & _ & _ & Hw & Hr).
    exists c, b, p. auto.
Qed.

(** C10. A message that is not empty but holds whitespace only passes the
    emptiness test of [/detect]; the chunker gives no segment, so the
    response is a stream that ends at once, with no model invocation and no
    snapshot.  On [/abstract] the same message is sent to the model as the
    one chunk. *)
Theorem whitespace_message (data : dict) (message : pystr) :
  dict_get data (str "message") = Some (JStr message) ->
  message <> [] ->
  forallb isspace message = true ->
  split_into_chunks (JStr message) default_chunk_size = Ok []
  /\ detect ollama_chat data = StreamResponse ([], Ok []) (str "application/json")
  /\ invocations (detect ollama_chat data) = []
  /\ invocations (abstract ollama_chat data)
     = [Chat global_base_model abstract_prompt (JStr message)].
Proof.
  intros Hget Hne Hws.
  assert (Hsplit : split_into_chunks (JStr message) default_chunk_size = Ok []).
  { unfold split_into_chunks, method_split, bind.
    now rewrite (split_whitespace _ Hws). }
  assert (Hm : message_of data = JStr message)
    by (unfold message_of; now rewrite Hget).
  assert (Ht : truthy (JStr message) = true) by (destruct message; simpl; congruence).
  assert (Hd : detect ollama_chat data
               = StreamResponse ([], Ok []) (str "application/json")).
  { unfold detect. rewrite Hm, Ht. cbn [negb].
    unfold get_response_stream, prompt_chunks_of. now rewrite Hsplit. }
  split; [exact Hsplit|]. split; [exact Hd|]. split; [now rewrite Hd|].
  unfold abstract. rewrite Hm, Ht. cbn [negb].
  unfold get_response_stream, prompt_chunks_of. cbn [for_prompt_chunk].
  pose proof (for_chunk_no_chat []
                (ollama_chat global_base_model abstract_prompt (JStr message)) fresh)
    as Hquiet.
  destruct (for_chunk [] fresh
              (ollama_chat global_base_model abstract_prompt (JStr message)))
    as [evs [r|e]]; unfold invocations; cbn [events_of filter is_chat];
    simpl in Hquiet; rewrite ?app_nil_r, Hquiet; reflexivity.
Qed.

End HandlerClaims.

(* ================================================================= *)
(** ** The claims at concrete inputs *)

Lemma finalized_results_persist_witness :
  exists evs2,
    fst (get_response_stream jane_engine global_base_model detect_prompt
           (JStr long_message) true)
    = fst (for_prompt_chunk jane_engine global_base_model detect_prompt []
             [hundred_words]) ++ evs2
    /\ Forall (fun snapshot =>
                 exists rest, result_list snapshot = Some ([jane] ++ rest))
         (snapshots evs2)
    /\ forall final,
        snd (get_response_stream jane_engine global_base_model detect_prompt
               (JStr long_message) true) = Ok final ->
        exists added, final = [jane] ++ added.
Proof.
  apply (@finalized_results_persist jane_engine global_base_model detect_prompt
           (JStr long_message) true [hundred_words] [JStr (str "w")]
           (fst (for_prompt_chunk jane_engine global_base_model detect_prompt []
                   [hundred_words]))
           [jane]).
  - vm_compute. reflexivity.
  - vm_compute. reflexivity.
Defined.

(** C1, as stated, fails: the second snapshot of this request carries [[2]],
    which does not extend the [[1]] of the first. *)
Lemma snapshots_not_monotone :
  ~ monotone
      (fst (get_response_stream (engine twice_stream) global_base_model
              detect_prompt (JStr (str "hello")) true)).
Proof.
  intros H.
  destruct (H 0%nat (JObj [(results_key, JArr [JInt 1])])
              (JObj [(results_key, JArr [JInt 2])]))
    as (la & lb & rest & Ha & Hb & Hr).
  - vm_compute. reflexivity.
  - vm_compute. reflexivity.
  - vm_compute in Ha, Hb. injection Ha as <-. injection Hb as <-. discriminate.
Qed.

(** The running total itself can lose what a chunk has shown: when the
    closing brace arrives on its own, the string stored last is the one that
    failed to parse, and the chunk adds nothing to the total. *)
Example lone_brace_finalizes_nothing :
  let stream :=
    [ delta (str "{" ++ quoted "results" ++ str ": [{" ++ quoted "text" ++ str ": "
             ++ quoted "Jane" ++ str "}]");
      delta (str "}");
      last_record ] in
  map result_list (snapshots (fst (for_chunk [] fresh stream))) = [Some [jane]]
  /\ snd (for_chunk [] fresh stream) = Ok [].
Proof. vm_compute. split; reflexivity. Qed.

(** C2 at a failing input: the concatenated text parses to one item with the
    text ["[Jane]"], but the record [[Jane]] is lost when its repaired prefix
    fails to parse, and the last snapshot carries the text [""]. *)
Theorem dropped_record_changes_final_snapshot :
  json.loads (concat (map content bracket_stream))
  = Ok (JObj [(results_key, JArr [JObj [(str "text", JStr (str "[Jane]"))]])])
  /\ map result_list (snapshots (fst (for_chunk [] fresh bracket_stream)))
     = [Some [JObj [(str "text", JStr [])]]].
Proof. vm_compute. split; reflexivity. Qed.

(** C3 at a failing input: the record [[Jane]] holds a bracket and its
    repaired prefix does not parse; no snapshot is emitted, and the buffer
    after the record is the buffer before it, without the record. *)
Theorem failed_parse_drops_record :
  let st := open_text_state in
  let content := str "[Jane]" in
  has_closer content = true
  /\ json.loads (json_str (buffer st ++ content) content) = Raise JSONDecodeError
  /\ on_content [] st content
     = ([DecodeErrorPrinted content],
        Ok {| buffer := buffer st;
              last_parsed_content := json_str (buffer st ++ content) content |}).
Proof. vm_compute. repeat split; reflexivity. Qed.


Lemma done_finalizes_chunk_witness :
  exists evs' results',
    ((exists partial,
         well_shaped (last_parsed_content jane_state) partial
         /\ evs' = fst (for_contents [] fresh (map content (firstn 2 jane_stream)))
         /\ results' = [] ++ partial)
     \/ (json.loads (last_parsed_content jane_state) = Raise JSONDecodeError
         /\ evs' = fst (for_contents [] fresh (map content (firstn 2 jane_stream)))
                   ++ [ErrorInBufferPrinted (last_parsed_content jane_state)]
         /\ results' = []))
    /\ for_chunk [] fresh (jane_engine (str "m") (str "s") (JStr (str "a")))
       = (evs', Ok results')
    /\ for_prompt_chunk jane_engine (str "m") (str "s") []
         (JStr (str "a") :: [JStr (str "b")])
       = (Chat (str "m") (str "s") (JStr (str "a"))
            :: evs' ++ fst (for_prompt_chunk jane_engine (str "m") (str "s")
                              results' [JStr (str "b")]),
          snd (for_prompt_chunk jane_engine (str "m") (str "s")
                 results' [JStr (str "b")])).
Proof.
  apply (@done_finalizes_chunk jane_engine (str "m") (str "s") []
           (JStr (str "a")) [JStr (str "b")] (firstn 2 jane_stream) []
           last_record
           (fst (for_contents [] fresh (map content (firstn 2 jane_stream))))
           jane_state).
  - reflexivity.
  - repeat constructor.
  - reflexivity.
  - vm_compute. reflexivity.
Defined.

Lemma empty_message_rejected_witness :
  detect jane_engine []
  = JsonResponse (JObj [(str "error", JStr (str "No message provided"))]) 400
  /\ abstract jane_engine []
     = JsonResponse (JObj [(str "error", JStr (str "No message provided"))]) 400
  /\ invocations (detect jane_engine []) = []
  /\ invocations (abstract jane_engine []) = [].
Proof. apply (@empty_message_rejected jane_engine []). left. reflexivity. Defined.



Lemma abstract_single_invocation_witness :
  exists evs r,
    for_chunk [] fresh
      (jane_engine global_base_model abstract_prompt (JStr (str "I work at CMU")))
    = (evs, r)
    /\ abstract jane_engine cmu_request
       = StreamResponse
           (Chat global_base_model abstract_prompt (JStr (str "I work at CMU"))
              :: evs, r)
           (str "application/json")
    /\ invocations (abstract jane_engine cmu_request)
       = [Chat global_base_model abstract_prompt (JStr (str "I work at CMU"))]
    /\ Forall (fun snapshot =>
                 exists c buffer partial,
                   well_shaped (json_str (buffer ++ content c) (content c)) partial
                   /\ result_list snapshot = Some partial)
         (snapshots evs).
Proof.
  apply (@abstract_single_invocation jane_engine cmu_request (str "I work at CMU")).
  - reflexivity.
  - discriminate.
Defined.

Lemma whitespace_message_witness :
  split_into_chunks (JStr (str "  ")) default_chunk_size = Ok []
  /\ detect jane_engine blank_request
     = StreamResponse ([], Ok []) (str "application/json")
  /\ invocations (detect jane_engine blank_request) = []
  /\ invocations (abstract jane_engine blank_request)
     = [Chat global_base_model abstract_prompt (JStr (str "  "))].
Proof.
  apply (@whitespace_message jane_engine blank_request (str "  ")).
  - reflexivity.
  - discriminate.
  - reflexivity.
Defined.

(* ================================================================= *)
(** * Further properties *)

(* ================================================================= *)
(** ** The chunker, continued *)

Lemma map_split_join (cs : list (list pystr)) :
  Forall (Forall is_word) cs -> map split (map (join (str " ")) cs) = cs.
Proof.
  induction 1 as [|c cs Hc Hcs IH]; [reflexivity|].
  simpl. now rewrite IH, split_join.
Qed.

Lemma chunks_of_words (text : pystr) (W : nat) :
  (1 <= W)%nat ->
  Forall (Forall is_word) (chunks_of (length (split text)) W (split text)).
Proof.
  intros HW. apply Forall_concat_chunks.
  rewrite chunks_of_concat by lia. apply split_words.
Qed.

(** Every run but the last is full. *)
Lemma chunks_of_full (A : Type) (W fuel : nat) :
  forall (l : list A) (i : nat) (c : list A),
    nth_error (chunks_of fuel W l) i = Some c ->
    (S i < length (chunks_of fuel W l))%nat ->
    length c = W.
Proof.
  induction fuel as [|fuel IH]; intros l i c Hn Hi; [destruct i; discriminate|].
  destruct l as [|a l]; [destruct i; discriminate|].
  cbn [chunks_of] in *. destruct i as [|i].
  - injection Hn as <-. cbn [length] in Hi.
    assert (Hne : chunks_of fuel W (skipn W (a :: l)) <> [])
      by (destruct (chunks_of fuel W (skipn W (a :: l))); [simpl in Hi; lia | discriminate]).
    assert (Hs : skipn W (a :: l) <> []).
    { intros E. apply Hne. rewrite E. destruct fuel; reflexivity. }
    rewrite length_firstn. apply Nat.min_l.
    destruct (Nat.le_gt_cases W (length (a :: l))) as [|Hlt]; trivial.
    exfalso. apply Hs. apply skipn_all2. lia.
  - cbn [nth_error length] in *. eapply IH; [exact Hn | lia].
Qed.

(** A text of at most [W] words is one run. *)
Lemma chunks_of_single (A : Type) (W : nat) (l : list A) :
  l <> [] -> (length l <= W)%nat -> chunks_of (length l) W l = [l].
Proof.
  intros Hne Hlen. destruct l as [|a l]; [congruence|].
  change (length (a :: l)) with (S (length l)) in *. cbn [chunks_of].
  rewrite firstn_all2 by (simpl; lia).
  rewrite skipn_all2 by (simpl; lia). now destruct (length l).
Qed.

(** X1. With a positive chunk size the chunker neither loses, repeats nor
    reorders a word: the words of the segments, read in order, are the words
    of the input. *)
Theorem split_into_chunks_keeps_words (input_text : pystr) (W : Z) :
  1 <= W ->
  exists segments,
    split_into_chunks (JStr input_text) W = Ok segments
    /\ concat (map split segments) = split input_text.
Proof.
  intros HW. rewrite split_into_chunks_groups by assumption.
  eexists. split; [reflexivity|].
  rewrite map_split_join by (apply chunks_of_words; lia).
  apply chunks_of_concat; lia.
Qed.

Lemma split_into_chunks_keeps_words_witness :
  exists segments,
    split_into_chunks (JStr (str "  My name   is Jane Doe ")) 2 = Ok segments
    /\ concat (map split segments) = split (str "  My name   is Jane Doe ").
Proof.
  apply (@split_into_chunks_keeps_words (str "  My name   is Jane Doe ") 2). lia.
Defined.

(** X2. With a positive chunk size [W] every segment but the last holds
    exactly [W] words, and no segment is empty: the last holds between 1 and
    [W] words. *)
Theorem split_into_chunks_sizes (input_text : pystr) (W : Z) (segments : list pystr)
        (i : nat) (segment : pystr) :
  1 <= W ->
  split_into_chunks (JStr input_text) W = Ok segments ->
  nth_error segments i = Some segment ->
  1 <= len (split segment) <= W
  /\ ((S i < length segments)%nat -> len (split segment) = W).
Proof.
  intros HW. rewrite split_into_chunks_groups by assumption.
  intros [= <-] Hn.
  rewrite nth_error_map in Hn.
  destruct (nth_error (chunks_of (length (split input_text)) (Z.to_nat W)
                         (split input_text)) i) as [c|] eqn:Hc; [|discriminate].
  injection Hn as <-.
  assert (Hin : In c (chunks_of (length (split input_text)) (Z.to_nat W)
                        (split input_text))) by (eapply nth_error_In; eauto).
  pose proof (@chunks_of_words input_text (Z.to_nat W) ltac:(lia)) as Hw.
  pose proof (@chunks_of_bounded _ (Z.to_nat W) (length (split input_text))
                (split input_text) ltac:(lia)) as Hb.
  rewrite Forall_forall in Hw, Hb.
  rewrite split_join by auto. destruct (Hb c Hin) as [Hne Hle].
  unfold len. split.
  - destruct c; [congruence | simpl in *; lia].
  - rewrite length_map. intros Hi.
    rewrite (chunks_of_full _ _ _ Hc Hi). lia.
Qed.

Lemma split_into_chunks_sizes_witness :
  1 <= len (split (str "My name")) <= 2
  /\ ((1 < length [str "My name"; str "is Jane"; str "Doe"])%nat ->
      len (split (str "My name")) = 2).
Proof.
  apply (@split_into_chunks_sizes (str "  My name   is Jane Doe ") 2
           [str "My name"; str "is Jane"; str "Doe"] 0 (str "My name")).
  - lia.
  - reflexivity.
  - reflexivity.
Defined.

(** Joining the runs of a text's words gives back the normalised text. *)
Lemma chunks_join (text : pystr) (W : nat) :
  (1 <= W)%nat ->
  join (str " ")
    (map (join (str " ")) (chunks_of (length (split text)) W (split text)))
  = join (str " ") (split text).
Proof.
  intros HW. rewrite join_concat.
  - now rewrite chunks_of_concat by lia.
  - eapply Forall_impl; [|apply chunks_of_bounded; exact HW]. now intros c [Hne _].
Qed.

(** X3. Chunking is stable: joining the segments with single spaces and
    chunking the result with the same size gives the same segments back. *)
Theorem split_into_chunks_stable (input_text : pystr) (W : Z) (segments : list pystr) :
  1 <= W ->
  split_into_chunks (JStr input_text) W = Ok segments ->
  split_into_chunks (JStr (join (str " ") segments)) W = Ok segments.
Proof.
  intros HW H.
  rewrite split_into_chunks_groups in H |- * by assumption.
  injection H as <-.
  rewrite chunks_join, split_join by (lia || apply split_words). reflexivity.
Qed.

Lemma split_into_chunks_stable_witness :
  split_into_chunks
    (JStr (join (str " ") [str "My name"; str "is Jane"; str "Doe"])) 2
  = Ok [str "My name"; str "is Jane"; str "Doe"].
Proof.
  apply (@split_into_chunks_stable (str "  My name   is Jane Doe ") 2).
  - lia.
  - reflexivity.
Defined.

(** X4. A chunk size that is not positive never gives a segment: size 0
    raises [ValueError] (the step of [range]), and a negative size returns
    the empty list, whatever the text. *)
Theorem split_into_chunks_bad_size (input_text : pystr) (W : Z) :
  W <= 0 ->
  split_into_chunks (JStr input_text) W
  = if W =? 0 then Raise ValueError else Ok [].
Proof.
  intros HW. unfold split_into_chunks, method_split, bind, range.
  destruct (Z.eqb_spec W 0); [reflexivity|].
  destruct (Z.ltb_spec 0 W); [lia|].
  replace (Z.to_nat (0 - len (split input_text))) with 0%nat
    by (unfold len; lia).
  reflexivity.
Qed.

Lemma split_into_chunks_bad_size_witness :
  split_into_chunks (JStr (str "My name is Jane")) (-3)
  = if (-3) =? 0 then Raise ValueError else Ok [].
Proof. apply (@split_into_chunks_bad_size (str "My name is Jane") (-3)). lia. Defined.

(* ================================================================= *)
(** ** The repaired prefix *)

Lemma rfind_from_absent (c : N) (s : pystr) :
  forall i last, contains c s = false -> rfind_from i last c s = last.
Proof.
  induction s as [|x s IH]; intros i last H; simpl in *; [reflexivity|].
  apply orb_false_iff in H as [Hx Hs]. rewrite N.eqb_sym, Hx. now apply IH.
Qed.

Lemma rfind_from_app (c : N) (a b : pystr) :
  forall i last,
    rfind_from i last c (a ++ b)
    = rfind_from (i + len a) (rfind_from i last c a) c b.
Proof.
  induction a as [|x a IH]; intros i last; simpl.
  - f_equal. unfold len. simpl. lia.
  - rewrite IH. f_equal. unfold len. simpl length. lia.
Qed.

(** [rfind] gives the place of the last occurrence. *)
Lemma rfind_last (c : N) (before after : pystr) :
  contains c after = false ->
  rfind c (before ++ c :: after) = len before.
Proof.
  intros H. unfold rfind. rewrite rfind_from_app. simpl.
  rewrite N.eqb_refl. now rewrite rfind_from_absent.
Qed.

Lemma last_occurrence (c : N) (s : pystr) :
  contains c s = true ->
  exists kept rest, s = kept ++ c :: rest /\ contains c rest = false.
Proof.
  induction s as [|x s IH]; intros H; simpl in H; [discriminate|].
  destruct (contains c s) eqn:Hs.
  - destruct (IH eq_refl) as (kept & rest & -> & Hr).
    exists (x :: kept), rest. now split.
  - rewrite orb_false_r in H. apply N.eqb_eq in H. subst x.
    exists [], s. now split.
Qed.

Lemma slice_to_app (A : Type) (a b : list A) : slice_to (a ++ b) (len a) = a.
Proof.
  unfold slice_to, slice, clamp, len. rewrite length_app.
  destruct (Z.ltb_spec 0 0); [lia|].
  destruct (Z.ltb_spec (Z.of_nat (length a)) 0); [lia|].
  rewrite Z.min_l, Z.min_l by lia. simpl skipn.
  replace (Z.to_nat (Z.of_nat (length a)) - Z.to_nat 0)%nat with (length a) by lia.
  rewrite firstn_app, firstn_all, Nat.sub_diag. simpl. apply app_nil_r.
Qed.

Lemma json_str_cut (c : N) (buffer kept rest : pystr) :
  contains c rest = false ->
  slice_to (buffer ++ kept ++ c :: rest) (rfind c (buffer ++ kept ++ c :: rest))
  = buffer ++ kept.
Proof.
  intros H. rewrite app_assoc, rfind_last by assumption. apply slice_to_app.
Qed.

(** X5. The cut of line 101 always falls inside the record just received:
    [rfind] never answers [-1] there, the whole buffer is kept, and what is
    dropped is the record's last closing bracket (or, when the record holds
    no bracket, its last closing brace) with everything after it. *)
Theorem repaired_prefix_keeps_buffer (buffer content : pystr) :
  has_closer content = true ->
  exists kept rest,
    (contains (json.ch "]") content = true
     /\ content = kept ++ json.ch "]" :: rest
     /\ contains (json.ch "]") rest = false
     /\ json_str (buffer ++ content) content = buffer ++ kept ++ str "]}")
    \/ (contains (json.ch "]") content = false
        /\ content = kept ++ json.ch "}" :: rest
        /\ contains (json.ch "}") rest = false
        /\ json_str (buffer ++ content) content = buffer ++ kept ++ str "}]}").
Proof.
  unfold has_closer, json_str. intros H.
  destruct (contains (json.ch "]") content) eqn:Hb.
  - destruct (last_occurrence _ _ Hb) as (kept & rest & -> & Hr).
    exists kept, rest. left. repeat split; trivial.
    rewrite json_str_cut by assumption. now rewrite app_assoc.
  - simpl in H. destruct (last_occurrence _ _ H) as (kept & rest & -> & Hr).
    exists kept, rest. right. repeat split; trivial.
    rewrite json_str_cut by assumption. now rewrite app_assoc.
Qed.

Lemma repaired_prefix_keeps_buffer_witness :
  exists kept rest,
    (contains (json.ch "]") (str "a]b}c") = true
     /\ str "a]b}c" = kept ++ json.ch "]" :: rest
     /\ contains (json.ch "]") rest = false
     /\ json_str (str "xy" ++ str "a]b}c") (str "a]b}c")
        = str "xy" ++ kept ++ str "]}")
    \/ (contains (json.ch "]") (str "a]b}c") = false
        /\ str "a]b}c" = kept ++ json.ch "}" :: rest
        /\ contains (json.ch "}") rest = false
        /\ json_str (str "xy" ++ str "a]b}c") (str "a]b}c")
           = str "xy" ++ kept ++ str "}]}").
Proof.
  apply (@repaired_prefix_keeps_buffer (str "xy") (str "a]b}c")). reflexivity.
Defined.

(* ================================================================= *)
(** ** Snapshots and the parsed object *)













(* ================================================================= *)
(** ** The shape of one invocation *)

(** X8. The stream is read up to its first record with [done] only: what
    the engine sends after that record changes nothing. *)
Theorem records_after_done_ignored (results : list value) (st : locals)
        (pre post : list chunk) (c : chunk) :
  done c = true ->
  for_chunk results st (pre ++ c :: post) = for_chunk results st (pre ++ [c]).
Proof.
  intros Hc. revert st. induction pre as [|a pre IH]; intros st; simpl.
  - now rewrite Hc.
  - destruct (done a); [reflexivity|].
    destruct (on_content results st (content a)) as [evs [st'|e]]; [|reflexivity].
    now rewrite IH.
Qed.

Lemma records_after_done_ignored_witness :
  for_chunk [] fresh (firstn 2 jane_stream ++ last_record :: two_item_stream)
  = for_chunk [] fresh (firstn 2 jane_stream ++ [last_record]).
Proof.
  apply (@records_after_done_ignored [] fresh (firstn 2 jane_stream)
           two_item_stream last_record).
  reflexivity.
Defined.

(** X9. The running total is extended by the record with [done] and by
    nothing else: a stream that runs out without one leaves the total as it
    was, whatever snapshots it gave. *)
Theorem no_done_no_contribution (results results' : list value) (st : locals)
        (stream : list chunk) (evs : list event) :
  Forall (fun c => done c = false) stream ->
  for_chunk results st stream = (evs, Ok results') ->
  results' = results.
Proof.
  intros Hs. revert st evs. induction Hs as [|c stream Hc Hs IH]; intros st evs; simpl.
  - now intros [= _ <-].
  - rewrite Hc.
    destruct (on_content results st (content c)) as [evs1 [st'|e]]; [|discriminate].
    destruct (for_chunk results st' stream) as [evs2 r] eqn:E.
    intros [= _ ->]. eapply IH; eauto.
Qed.

Lemma no_done_no_contribution_witness :
  snapshots (fst (for_chunk [] fresh (firstn 2 jane_stream)))
  = [JObj [(results_key, JArr [jane])]; JObj [(results_key, JArr [jane])]]
  /\ @nil value = [].
Proof.
  split; [vm_compute; reflexivity|].
  apply (@no_done_no_contribution [] [] fresh (firstn 2 jane_stream)
           (fst (for_chunk [] fresh (firstn 2 jane_stream)))).
  - repeat constructor.
  - vm_compute. reflexivity.
Defined.

Lemma on_content_snapshot_count (results : list value) (st : locals) (content : pystr) :
  (length (snapshots (fst (on_content results st content)))
   <= if has_closer content then 1 else 0)%nat.
Proof.
  destruct (on_content_cases results st content)
    as [[Hc E]|[(s & p & Hw & Hr & E)|[[Hl E]|(e & parsed & _ & _ & _ & E)]]];
    rewrite E; simpl; try (destruct (has_closer content); lia).
  destruct (has_closer content) eqn:Hc; [lia|].
  rewrite on_content_plain in E by assumption. discriminate.
Qed.

(** X10. A record gives at most one snapshot, and only a record that holds
    a closing bracket or brace gives one: an invocation emits no more
    snapshots than its stream has such records. *)
Theorem snapshots_bounded_by_closers (results : list value) (st : locals)
        (stream : list chunk) :
  (length (snapshots (fst (for_chunk results st stream)))
   <= length (filter may_emit stream))%nat.
Proof.
  revert st. induction stream as [|c stream IH]; intros st; simpl; [lia|].
  unfold may_emit at 1. destruct (done c); simpl.
  - destruct (on_done_quiet results st) as [-> _]. simpl. lia.
  - pose proof (on_content_snapshot_count results st (content c)) as Hc.
    destruct (on_content results st (content c)) as [evs [st'|e]]; simpl in *.
    + specialize (IH st'). destruct (for_chunk results st' stream) as [evs' r].
      simpl in *. rewrite snapshots_app, length_app.
      destruct (has_closer (content c)); simpl; lia.
    + destruct (has_closer (content c)); simpl; lia.
Qed.

Lemma for_contents_app (results : list value) (a b : list pystr) :
  forall st,
    for_contents results st (a ++ b)
    = match for_contents results st a with
      | (evs, Ok st') =>
          let (evs', r) := for_contents results st' b in (evs ++ evs', r)
      | (evs, Raise e) => (evs, Raise e)
      end.
Proof.
  induction a as [|x a IH]; intros st; simpl.
  - now destruct (for_contents results st b).
  - destruct (on_content results st x) as [evs [st'|e]]; [|reflexivity].
    rewrite IH. destruct (for_contents results st' a) as [evs1 [st1|e]]; [|reflexivity].
    destruct (for_contents results st1 b). now rewrite app_assoc.
Qed.

(** Records without bracket or brace only lengthen the buffer. *)
Lemma for_contents_plain (results : list value) (contents : list pystr) :
  Forall (fun content => has_closer content = false) contents ->
  forall st,
    for_contents results st contents
    = ([], Ok {| buffer := buffer st ++ concat contents;
                 last_parsed_content := last_parsed_content st |}).
Proof.
  induction 1 as [|content contents Hc Hcs IH]; intros st; simpl.
  - rewrite app_nil_r. now destruct st.
  - rewrite on_content_plain by assumption. rewrite IH. simpl.
    now rewrite app_assoc.
Qed.

(** X11. As long as no repaired prefix fails to parse, the buffer is the
    text received so far: the buffer before, followed by every record in
    order. *)
Theorem buffer_is_text_received (results : list value) (contents : list pystr) :
  forall (st st' : locals) (evs : list event),
    for_contents results st contents = (evs, Ok st') ->
    existsb is_decode_error evs = false ->
    buffer st' = buffer st ++ concat contents.
Proof.
  induction contents as [|content contents IH]; intros st st' evs; simpl.
  - intros [= _ <-] _. now rewrite app_nil_r.
  - destruct (on_content_cases results st content)
      as [[_ E]|[(s & p & _ & _ & E)|[[_ E]|(e & parsed & _ & _ & _ & E)]]];
      rewrite E; try discriminate.
    1-2: match goal with
         | |- context [for_contents _ ?st1 ?cs] =>
             specialize (IH st1);
             destruct (for_contents results st1 cs) as [evs2 r] eqn:E2;
             intros [= <- ->] Hq; simpl in Hq;
             rewrite (IH _ _ eq_refl Hq); simpl; now rewrite app_assoc
         end.
    destruct (for_contents results _ contents) as [evs2 r].
    intros [= <- _]. discriminate.
Qed.

Lemma buffer_is_text_received_witness :
  buffer jane_state = buffer fresh ++ concat (map content (firstn 2 jane_stream)).
Proof.
  apply (@buffer_is_text_received [] (map content (firstn 2 jane_stream)) fresh
           jane_state (fst (for_contents [] fresh (map content (firstn 2 jane_stream))))).
  - vm_compute. reflexivity.
  - vm_compute. reflexivity.
Defined.

Lemma on_done_stored (results : list value) (st1 st2 : locals) :
  last_parsed_content st1 = last_parsed_content st2 ->
  on_done results st1 = on_done results st2.
Proof. unfold on_done. now intros ->. Qed.

(** X12. An invocation in which no record holds a closing bracket or brace
    (an empty answer included) yields nothing and adds nothing to the
    running total: at [done] the stored string is still empty, its parse
    fails and the failure is printed. *)
Theorem nothing_closed_nothing_added (results : list value) (pre post : list chunk)
        (c : chunk) :
  Forall (fun c => done c = false) pre ->
  Forall (fun c => has_closer (content c) = false) pre ->
  done c = true ->
  for_chunk results fresh (pre ++ c :: post)
  = ([ErrorInBufferPrinted []], Ok results).
Proof.
  intros Hd Hp Hc. rewrite for_chunk_until_done by assumption.
  rewrite for_contents_plain by (now apply Forall_map).
  match goal with
  | |- context [on_done _ ?s] => rewrite (@on_done_stored results s fresh eq_refl)
  end.
  reflexivity.
Qed.

Lemma nothing_closed_nothing_added_witness :
  for_chunk [jane] fresh (firstn 2 open_stream ++ last_record :: [])
  = ([ErrorInBufferPrinted []], Ok [jane]).
Proof.
  apply (@nothing_closed_nothing_added [jane] (firstn 2 open_stream) [] last_record).
  - repeat constructor.
  - repeat constructor.
  - reflexivity.
Defined.

(** X13. What an invocation adds to the running total is decided by its
    last record that holds a closing bracket or brace, and by nothing
    before it: the list its repaired prefix parses to, or nothing when that
    prefix does not parse, even if earlier records gave snapshots. *)
Theorem last_closer_decides (results results' : list value) (st st1 : locals)
        (pre1 pre2 post : list chunk) (r c : chunk) (evs1 evs : list event) :
  Forall (fun c => done c = false) (pre1 ++ r :: pre2) ->
  done c = true ->
  for_contents results st (map content pre1) = (evs1, Ok st1) ->
  has_closer (content r) = true ->
  Forall (fun c => has_closer (content c) = false) pre2 ->
  for_chunk results st ((pre1 ++ r :: pre2) ++ c :: post) = (evs, Ok results') ->
  (exists partial,
      well_shaped (json_str (buffer st1 ++ content r) (content r)) partial
      /\ results' = results ++ partial)
  \/ (json.loads (json_str (buffer st1 ++ content r) (content r))
      = Raise JSONDecodeError
      /\ results' = results).
Proof.
  intros Hd Hc H1 Hr Hp. rewrite for_chunk_until_done by assumption.
  rewrite map_app, for_contents_app, H1. simpl map. simpl for_contents.
  assert (Hplain : forall st2,
             for_contents results st2 (map content pre2)
             = ([], Ok {| buffer := buffer st2 ++ concat (map content pre2);
                          last_parsed_content := last_parsed_content st2 |}))
    by (apply for_contents_plain; now apply Forall_map).
  destruct (on_content_cases results st1 (content r))
    as [[Hc' _]|[(s & p & Hw & _ & E)|[[Hl E]|(e & parsed & _ & _ & _ & E)]]];
    [congruence | | |]; rewrite E; try discriminate; rewrite Hplain;
    match goal with |- context [on_done _ ?s] => set (st3 := s) end.
  - assert (Hs : settled st3) by (right; exists p; exact Hw).
    destruct (on_done_cases results Hs) as [(p' & Hw' & E')|[Hl' E']]; rewrite E'.
    + intros [= _ <-]. left. exists p'. split; [exact Hw' | reflexivity].
    + destruct Hw as (parsed & Hl & _). simpl in Hl'. congruence.
  - assert (Hs : settled st3) by (left; exact Hl).
    destruct (on_done_cases results Hs) as [(p' & (parsed & Hl' & _) & _)|[_ E']].
    + simpl in Hl'. congruence.
    + rewrite E'. intros [= _ <-]. right. now split.
Qed.

Lemma last_closer_decides_witness :
  (exists partial,
      well_shaped (json_str (buffer lone_brace_state ++ str "}") (str "}")) partial
      /\ @nil value = [] ++ partial)
  \/ (json.loads (json_str (buffer lone_brace_state ++ str "}") (str "}"))
      = Raise JSONDecodeError
      /\ @nil value = []).
Proof.
  apply (@last_closer_decides [] [] fresh lone_brace_state
           (firstn 1 lone_brace_stream) [] [] (delta (str "}")) last_record
           (fst (for_contents [] fresh (map content (firstn 1 lone_brace_stream))))
           (fst (for_chunk [] fresh lone_brace_stream))).
  - repeat constructor.
  - reflexivity.
  - vm_compute. reflexivity.
  - reflexivity.
  - constructor.
  - vm_compute. reflexivity.
Defined.

(* ================================================================= *)
(** ** The sequence of invocations *)

Section LoopFacts.

Variable ollama_chat : pystr -> pystr -> value -> list chunk.
Variables model_name system_prompt : pystr.

Local Abbreviation loop := (for_prompt_chunk ollama_chat model_name system_prompt).
Local Abbreviation call := (Chat model_name system_prompt).

Lemma for_prompt_chunk_calls (cs : list value) :
  forall results evs r,
    loop results cs = (evs, r) ->
    (forall final, r = Ok final -> filter is_chat evs = map call cs)
    /\ exists n, filter is_chat evs = map call (firstn n cs).
Proof.
  induction cs as [|c cs IH]; intros results evs r; simpl.
  - intros [= <- <-]. split; [reflexivity | now exists 0%nat].
  - pose proof (for_chunk_no_chat results
                  (ollama_chat model_name system_prompt c) fresh) as Hq.
    destruct (for_chunk results fresh (ollama_chat model_name system_prompt c))
      as [evs1 [results1|e]]; simpl in Hq.
    + destruct (loop results1 cs) as [evs2 r2] eqn:E2. intros [= <- <-].
      destruct (IH _ _ _ E2) as [Hall [n Hn]].
      simpl. rewrite filter_app, Hq. simpl. split.
      * intros final Hf. now rewrite (Hall final Hf).
      * exists (S n). simpl. now rewrite Hn.
    + intros [= <- <-]. simpl. rewrite Hq. split; [discriminate|].
      now exists 1%nat.
Qed.

(** X14. The model is invoked once per prompt chunk, in the order of the
    chunks and with the chunk as user content: a run that completes has
    invoked every chunk, and a run that an exception ends has invoked the
    chunks up to the one that raised, none twice and none out of order. *)
Theorem one_invocation_per_chunk (results : list value) (cs : list value)
        (evs : list event) (r : result (list value)) :
  loop results cs = (evs, r) ->
  (forall final, r = Ok final -> filter is_chat evs = map call cs)
  /\ exists n, filter is_chat evs = map call (firstn n cs).
Proof. apply for_prompt_chunk_calls. Qed.

(** X15. An exception ends the whole request: when it leaves the generator
    during some chunk, the chunks after it are never sent to the model and
    the events stop there. *)
Theorem exception_stops_later_chunks (results : list value) (cs1 cs2 : list value)
        (evs : list event) (e : exn) :
  loop results cs1 = (evs, Raise e) ->
  loop results (cs1 ++ cs2) = (evs, Raise e).
Proof.
  revert results evs. induction cs1 as [|c cs1 IH]; intros results evs; simpl;
    [discriminate|].
  destruct (for_chunk results fresh (ollama_chat model_name system_prompt c))
    as [evs1 [results1|e1]]; [|trivial].
  destruct (loop results1 cs1) as [evs2 r2] eqn:E2. intros [= <- ->].
  now rewrite (IH _ _ E2).
Qed.

End LoopFacts.

Lemma one_invocation_per_chunk_witness :
  (forall final,
      Ok [jane; jane] = Ok final ->
      filter is_chat
        (fst (for_prompt_chunk jane_engine (str "m") (str "s") []
                [JStr (str "a"); JStr (str "b")]))
      = map (Chat (str "m") (str "s")) [JStr (str "a"); JStr (str "b")])
  /\ exists n,
      filter is_chat
        (fst (for_prompt_chunk jane_engine (str "m") (str "s") []
                [JStr (str "a"); JStr (str "b")]))
      = map (Chat (str "m") (str "s")) (firstn n [JStr (str "a"); JStr (str "b")]).
Proof.
  apply (@one_invocation_per_chunk jane_engine (str "m") (str "s") []
           [JStr (str "a"); JStr (str "b")]).
  vm_compute. reflexivity.
Defined.

Lemma exception_stops_later_chunks_witness :
  for_prompt_chunk (engine other_key_stream) (str "m") (str "s") []
    ([JStr (str "a")] ++ [JStr (str "b")])
  = ([Chat (str "m") (str "s") (JStr (str "a"))], Raise KeyError).
Proof.
  apply (@exception_stops_later_chunks (engine other_key_stream) (str "m") (str "s")
           [] [JStr (str "a")] [JStr (str "b")]).
  vm_compute. reflexivity.
Defined.

(* ================================================================= *)
(** ** The handlers, continued *)

Lemma truthy_falsy (x : value) : truthy x = false <-> falsy x.
Proof.
  unfold falsy. split.
  - destruct x; cbn [truthy]; intros H; auto 7.
    + subst b. auto.
    + apply negb_false_iff, Z.eqb_eq in H. subst n. auto.
    + apply negb_false_iff in H. repeat right. exists m, e.
      split; [reflexivity|].
      apply orb_true_iff in H as [H|H]; [left; now apply Z.eqb_eq|].
      apply andb_true_iff in H as [H1 H2]. right.
      split; [now apply Z.ltb_lt | now apply Z.leb_le].
    + discriminate.
    + discriminate.
    + destruct s; [auto | discriminate].
    + destruct items; [auto 6 | discriminate].
    + destruct pairs; [auto 7 | discriminate].
  - intros [H|[H|[H|[H|[H|[H|(m & e & H & Hz)]]]]]]; subst x; try reflexivity.
    cbn [truthy]. apply negb_false_iff.
    destruct Hz as [-> | [H1 H2]]; [reflexivity|].
    apply orb_true_iff. right. apply andb_true_iff.
    split; [now apply Z.ltb_lt | now apply Z.leb_le].
Qed.

Section MoreHandlerFacts.

Variable ollama_chat : pystr -> pystr -> value -> list chunk.

(** X16. Both handlers answer 400 exactly for the messages Python counts as
    false: a missing message, [null], [false], a zero number, and an empty
    string, list or object.  Every other message, of whatever type, gets
    a stream. *)
Theorem rejected_iff_falsy (data : dict) :
  (detect ollama_chat data = JsonResponse no_message 400
   <-> falsy (message_of data))
  /\ (abstract ollama_chat data = JsonResponse no_message 400
      <-> falsy (message_of data)).
Proof.
  rewrite <- truthy_falsy. unfold detect, abstract.
  destruct (truthy (message_of data)); simpl; split; split;
    intros H; (reflexivity || discriminate).
Qed.

(** X17. A message that is true but not a string passes the emptiness test
    of [/detect]; its stream then ends at once with the [AttributeError] of
    [input_text.split()], before any model invocation. *)
Theorem detect_non_string_message (data : dict) :
  truthy (message_of data) = true ->
  (forall s, message_of data <> JStr s) ->
  detect ollama_chat data
  = StreamResponse ([], Raise AttributeError) (str "application/json")
  /\ invocations (detect ollama_chat data) = [].
Proof.
  intros Ht Hs.
  assert (E : detect ollama_chat data
              = StreamResponse ([], Raise AttributeError) (str "application/json")).
  { unfold detect. rewrite Ht. cbn [negb].
    unfold get_response_stream, prompt_chunks_of, split_into_chunks, method_split.
    destruct (message_of data); try reflexivity. now destruct (Hs s). }
  split; [exact E | now rewrite E].
Qed.

Lemma short_text_one_segment (text : pystr) :
  1 <= len (split text) <= default_chunk_size ->
  split_into_chunks (JStr text) default_chunk_size
  = Ok [join (str " ") (split text)].
Proof.
  unfold default_chunk_size, len. intros H.
  rewrite split_into_chunks_groups by lia.
  rewrite chunks_of_single; [reflexivity | | lia].
  destruct (split text); [simpl in H; lia | discriminate].
Qed.

Lemma words_not_empty (text : pystr) : 1 <= len (split text) -> text <> [].
Proof. intros H ->. unfold len in H. simpl in H. lia. Qed.

(** X18. [/detect] does not send the message as it came: for a message of
    1 to 100 words it makes exactly one invocation, whose user content is
    the message with leading and trailing whitespace removed and every run
    of whitespace replaced by one space. *)
Theorem detect_sends_normalised_text (data : dict) (text : pystr) :
  dict_get data (str "message") = Some (JStr text) ->
  1 <= len (split text) <= default_chunk_size ->
  invocations (detect ollama_chat data)
  = [Chat global_base_model detect_prompt (JStr (join (str " ") (split text)))].
Proof.
  intros Hget Hn.
  assert (Hm : message_of data = JStr text)
    by (unfold message_of; now rewrite Hget).
  assert (Ht : truthy (JStr text) = true).
  { pose proof (@words_not_empty text ltac:(lia)). destruct text; simpl; congruence. }
  unfold detect. rewrite Hm, Ht. cbn [negb].
  unfold get_response_stream, prompt_chunks_of.
  rewrite short_text_one_segment by assumption. simpl bind. cbn [map for_prompt_chunk].
  pose proof (for_chunk_no_chat []
                (ollama_chat global_base_model detect_prompt
                   (JStr (join (str " ") (split text)))) fresh) as Hq.
  destruct (for_chunk [] fresh
              (ollama_chat global_base_model detect_prompt
                 (JStr (join (str " ") (split text)))))
    as [evs [r|e]]; unfold invocations; cbn [events_of filter is_chat];
    simpl in Hq; rewrite ?app_nil_r, Hq; reflexivity.
Qed.


End MoreHandlerFacts.

Lemma rejected_iff_falsy_witness :
  (detect jane_engine null_request = JsonResponse no_message 400
   <-> falsy (message_of null_request))
  /\ (abstract jane_engine null_request = JsonResponse no_message 400
      <-> falsy (message_of null_request)).
Proof. apply (@rejected_iff_falsy jane_engine null_request). Defined.

Lemma detect_non_string_message_witness :
  detect jane_engine number_request
  = StreamResponse ([], Raise AttributeError) (str "application/json")
  /\ invocations (detect jane_engine number_request) = [].
Proof.
  apply (@detect_non_string_message jane_engine number_request).
  - reflexivity.
  - discriminate.
Defined.

Lemma detect_sends_normalised_text_witness :
  invocations (detect jane_engine padded_request)
  = [Chat global_base_model detect_prompt
       (JStr (join (str " ") (split (str "  My  name is Jane "))))].
Proof.
  apply (@detect_sends_normalised_text jane_engine padded_request
           (str "  My  name is Jane ")).
  - reflexivity.
  - vm_compute. split; discriminate.
Defined.


(* ================================================================= *)
(** ** The running total *)

Lemma merged_snapshot_total_independent (r1 r2 : list value) (js : pystr) :
  (exists s1 s2, merged_snapshot r1 js = Ok s1 /\ merged_snapshot r2 js = Ok s2)
  \/ (exists e, merged_snapshot r1 js = Raise e /\ merged_snapshot r2 js = Raise e).
Proof.
  unfold merged_snapshot, bind.
  destruct (json.loads js) as [parsed|e]; [|right; eauto].
  destruct parsed; simpl; try solve [right; eauto].
  destruct (dict_get pairs results_key) as [x|]; [|right; eauto].
  destruct x; simpl; try solve [right; eauto]. left. eauto.
Qed.

(** The state after a record does not depend on the running total. *)
Lemma on_content_total_independent (r1 r2 : list value) (st : locals) (content : pystr) :
  snd (on_content r1 st content) = snd (on_content r2 st content).
Proof.
  unfold on_content.
  destruct (contains (json.ch "]") content || contains (json.ch "}") content);
    [|reflexivity].
  destruct (merged_snapshot_total_independent r1 r2
              (json_str (buffer st ++ content) content))
    as [(s1 & s2 & -> & ->)|(e & -> & ->)]; [reflexivity|].
  now destruct e.
Qed.

Lemma extend_total_independent (r1 : list value) (x : value) :
  (exists added, forall r, extend r x = Ok (r ++ added))
  \/ (exists e, forall r, extend r x = Raise e).
Proof. destruct x; simpl; eauto. Qed.

Lemma on_done_total_independent (st : locals) :
  (exists added, forall r, snd (on_done r st) = Ok (r ++ added))
  \/ (exists e, forall r, snd (on_done r st) = Raise e).
Proof.
  unfold on_done, bind.
  destruct (json.loads (last_parsed_content st)) as [parsed|e].
  - destruct (getitem parsed results_key) as [x|e].
    + destruct (extend_total_independent [] x) as [[added H]|[e H]].
      * left. exists added. intros r. now rewrite H.
      * destruct e.
        -- left. exists []. intros r. rewrite H. simpl. now rewrite app_nil_r.
        -- right. exists KeyError. intros r. now rewrite H.
        -- right. exists TypeError. intros r. now rewrite H.
        -- right. exists AttributeError. intros r. now rewrite H.
        -- right. exists ValueError. intros r. now rewrite H.
    + destruct e.
      * left. exists []. intros r. simpl. now rewrite app_nil_r.
      * right. now exists KeyError.
      * right. now exists TypeError.
      * right. now exists AttributeError.
      * right. now exists ValueError.
  - destruct e.
    + left. exists []. intros r. simpl. now rewrite app_nil_r.
    + right. now exists KeyError.
    + right. now exists TypeError.
    + right. now exists AttributeError.
    + right. now exists ValueError.
Qed.

Lemma for_chunk_total_independent (stream : list chunk) :
  forall st,
    (exists added, forall r, snd (for_chunk r st stream) = Ok (r ++ added))
    \/ (exists e, forall r, snd (for_chunk r st stream) = Raise e).
Proof.
  induction stream as [|c stream IH]; intros st; simpl.
  - left. exists []. intros r. simpl. now rewrite app_nil_r.
  - destruct (done c); [apply on_done_total_independent|].
    destruct (snd (on_content [] st (content c))) as [st'|e] eqn:E.
    + destruct (IH st') as [[added H]|[e H]]; [left; exists added | right; exists e];
        intros r; specialize (H r);
        pose proof (on_content_total_independent r [] st (content c)) as Hi;
        rewrite E in Hi;
        destruct (on_content r st (content c)) as [evs1 r1]; simpl in Hi; subst r1;
        destruct (for_chunk r st' stream); exact H.
    + right. exists e. intros r.
      pose proof (on_content_total_independent r [] st (content c)) as Hi.
      rewrite E in Hi.
      destruct (on_content r st (content c)) as [evs1 r1]; simpl in Hi. now subst r1.
Qed.

(** X20. Whether an invocation completes, and what it then adds to the
    running total, does not depend on the total it starts from: the same
    stream adds the same list to any other total. *)
Theorem contribution_independent_of_total (results results' : list value)
        (st : locals) (stream : list chunk) (evs : list event) :
  for_chunk results st stream = (evs, Ok results') ->
  exists added,
    results' = results ++ added
    /\ forall other, snd (for_chunk other st stream) = Ok (other ++ added).
Proof.
  intros H. destruct (for_chunk_total_independent stream st) as [[added Ha]|[e He]].
  - exists added. split; [|exact Ha].
    specialize (Ha results). rewrite H in Ha. simpl in Ha. congruence.
  - specialize (He results). rewrite H in He. discriminate.
Qed.

Lemma contribution_independent_of_total_witness :
  exists added,
    [jane; jane] = [jane] ++ added
    /\ forall other, snd (for_chunk other fresh jane_stream) = Ok (other ++ added).
Proof.
  apply (@contribution_independent_of_total [jane] [jane; jane] fresh jane_stream
           (fst (for_chunk [jane] fresh jane_stream))).
  vm_compute. reflexivity.
Defined.

Section Accumulation.

Variable ollama_chat : pystr -> pystr -> value -> list chunk.
Variables model_name system_prompt : pystr.

(** X21. When a request completes, its running total is the total it
    started from followed by the contributions of its prompt chunks in chunk
    order, each as the chunk's invocation gives it on its own. *)
Theorem total_is_concatenation (cs : list value) :
  forall (results final : list value) (evs : list event),
    for_prompt_chunk ollama_chat model_name system_prompt results cs
    = (evs, Ok final) ->
    final
    = results ++ concat (map (contribution ollama_chat model_name system_prompt) cs).
Proof.
  induction cs as [|c cs IH]; intros results final evs; simpl.
  - intros [= _ <-]. now rewrite app_nil_r.
  - destruct (for_chunk_total_independent
                (ollama_chat model_name system_prompt c) fresh) as [[added Ha]|[e He]].
    + unfold contribution at 1. rewrite (Ha []). simpl.
      pose proof (Ha results) as Hr.
      destruct (for_chunk results fresh (ollama_chat model_name system_prompt c))
        as [evs1 r1]. simpl in Hr. subst r1.
      destruct (for_prompt_chunk ollama_chat model_name system_prompt
                  (results ++ added) cs) as [evs2 r2] eqn:E2.
      intros [= _ ->]. rewrite (IH _ _ _ E2). now rewrite app_assoc.
    + pose proof (He results) as Hr.
      destruct (for_chunk results fresh (ollama_chat model_name system_prompt c))
        as [evs1 r1]. simpl in Hr. subst r1. discriminate.
Qed.

End Accumulation.

Lemma total_is_concatenation_witness :
  [jane; jane]
  = [] ++ concat (map (contribution jane_engine (str "m") (str "s"))
                    [JStr (str "a"); JStr (str "b")]).
Proof.
  apply (@total_is_concatenation jane_engine (str "m") (str "s")
           [JStr (str "a"); JStr (str "b")] [] [jane; jane]
           (fst (for_prompt_chunk jane_engine (str "m") (str "s") []
                   [JStr (str "a"); JStr (str "b")]))).
  vm_compute. reflexivity.
Defined.

(** X22. A [/detect] request on a text message that runs to completion has
    invoked the model once for every segment the chunker gives, in text
    order, with the segment as user content. *)
Theorem detect_invokes_each_segment
        (ollama_chat : pystr -> pystr -> value -> list chunk) (data : dict)
        (text : pystr) (evs : list event) (final : list value) (content_type : pystr) :
  dict_get data (str "message") = Some (JStr text) ->
  detect ollama_chat data = StreamResponse (evs, Ok final) content_type ->
  exists segments,
    split_into_chunks (JStr text) default_chunk_size = Ok segments
    /\ invocations (detect ollama_chat data)
       = map (fun segment => Chat global_base_model detect_prompt (JStr segment))
           segments.
Proof.
  intros Hget Hd.
  assert (Hm : message_of data = JStr text)
    by (unfold message_of; now rewrite Hget).
  rewrite Hd. unfold invocations. cbn [events_of].
  unfold detect in Hd. rewrite Hm in Hd.
  destruct (truthy (JStr text)); cbn [negb] in Hd; [|discriminate].
  unfold get_response_stream, prompt_chunks_of in Hd.
  rewrite split_into_chunks_groups in Hd |- * by (unfold default_chunk_size; lia).
  simpl bind in Hd. eexists. split; [reflexivity|].
  injection Hd as Hrun _.
  destruct (for_prompt_chunk_calls _ _ _ _ _ Hrun) as [Hall _].
  rewrite (Hall final eq_refl). now rewrite map_map.
Qed.

Lemma detect_invokes_each_segment_witness :
  exists segments,
    split_into_chunks (JStr long_message) default_chunk_size = Ok segments
    /\ invocations
         (detect jane_engine [(str "message", JStr long_message)])
       = map (fun segment => Chat global_base_model detect_prompt (JStr segment))
           segments.
Proof.
  apply (@detect_invokes_each_segment jane_engine
           [(str "message", JStr long_message)] long_message
           (fst (get_response_stream jane_engine global_base_model detect_prompt
                   (JStr long_message) true))
           [jane; jane] (str "application/json")).
  - reflexivity.
  - vm_compute. reflexivity.
Defined.
